(** * LexTransition-AI: the retrieval engine of [engine/rag_engine.py]

    A shallow embedding of the PDF ingestion pass ([index_pdfs]), of the
    diagnostics read ([get_index_diagnostics]) and of the search entry point
    ([search_pdfs]) with its lexical tier, followed by the properties the
    specification states about them.

    Python values are modelled as follows.
    - [str] is a list of Unicode code points ([N]).
    - Python integers are [Z].
    - a [dict] keyed by strings is a [gmap]; a [list] is a [list].
    - module globals ([_INDEX], [_INDEX_LOADED], [_EMB_INDEX],
      [_LAST_INDEX_STATS]) and the part of the file system the engine reads
      and writes are the fields of one record, threaded through the calls. *)

From Stdlib Require Import ZArith NArith List Lia String Ascii DecimalString.
From stdpp Require Import base option list gmap sorting.

Local Open Scope Z_scope.

(** ** Strings *)

Abbreviation char := N (only parsing).
Abbreviation str := (list N) (only parsing).

(** An ASCII literal as a Python string. *)
Definition lit (s : string) : str :=
  List.map N_of_ascii (list_ascii_of_string s).

(** [len(s)] *)
Definition len {A} (l : list A) : Z := Z.of_nat (length l).

(** [c.isspace()]: the code points [str.strip()] removes. *)
Definition is_space (c : char) : bool :=
  ((9 <=? c) && (c <=? 13) || (28 <=? c) && (c <=? 32)
   || (c =? 133) || (c =? 160) || (c =? 5760)
   || (8192 <=? c) && (c <=? 8202)
   || (c =? 8232) || (c =? 8233) || (c =? 8239) || (c =? 8287)
   || (c =? 12288))%N.

Fixpoint lstrip (s : str) : str :=
  match s with
  | c :: s' => if is_space c then lstrip s' else s
  | [] => []
  end.

Definition rstrip (s : str) : str := rev (lstrip (rev s)).

(** [s.strip()] *)
Definition strip (s : str) : str := rstrip (lstrip s).

(** The character class [[A-Za-z0-9]]. *)
Definition is_alnum (c : char) : bool :=
  ((48 <=? c) && (c <=? 57) || (65 <=? c) && (c <=? 90)
   || (97 <=? c) && (c <=? 122))%N.

Definition is_nil {A} (l : list A) : bool :=
  match l with [] => true | _ => false end.

(** [re.findall(r"[A-Za-z0-9]+", s)]: the maximal runs of the class, left to
    right; [cur] is the run being read. *)
Fixpoint findall_alnum (s : str) (cur : str) : list str :=
  match s with
  | [] => if is_nil cur then [] else [cur]
  | c :: s' =>
      if is_alnum c then findall_alnum s' (cur ++ [c])
      else if is_nil cur then findall_alnum s' []
      else cur :: findall_alnum s' []
  end.

(** [s.startswith(sub)] *)
Fixpoint starts_with (sub s : str) : bool :=
  match sub, s with
  | [], _ => true
  | _ :: _, [] => false
  | a :: sub', b :: s' => (a =? b)%N && starts_with sub' s'
  end.

(** [s.find(sub)], searched from offset [i] on: the lowest offset at which
    [sub] occurs, [-1] when there is none. *)
Fixpoint find_from (sub s : str) (i : Z) : Z :=
  if starts_with sub s then i
  else match s with
       | [] => -1
       | _ :: s' => find_from sub s' (i + 1)
       end.

Definition find (s sub : str) : Z := find_from sub s 0.

(** [s.count(sub)] for a non-empty [sub]: occurrences are counted left to
    right without overlap; [skip] is the number of characters of the last
    counted occurrence still to pass. *)
Fixpoint count_from (sub s : str) (skip : nat) : Z :=
  match s with
  | [] => 0
  | _ :: s' =>
      match skip with
      | S k => count_from sub s' k
      | O => if starts_with sub s
             then 1 + count_from sub s' (length sub - 1)
             else count_from sub s' 0
      end
  end.

(** [s.count(sub)]; the empty string occurs [len(s) + 1] times. *)
Definition count (s sub : str) : Z :=
  if is_nil sub then len s + 1 else count_from sub s 0.

(** [s[a:b]] for offsets [0 <= a] and [0 <= b]. *)
Definition slice {A} (s : list A) (a b : Z) : list A :=
  take (Z.to_nat b - Z.to_nat a) (drop (Z.to_nat a) s).

(** [s.replace("\n", " ")] *)
Definition replace_newlines (s : str) : str :=
  List.map (fun c => if (c =? 10)%N then 32%N else c) s.

(** [sep.join(parts)] *)
Fixpoint join (sep : str) (parts : list str) : str :=
  match parts with
  | [] => []
  | [p] => p
  | p :: rest => p ++ sep ++ join sep rest
  end.

(** [str(n)] for an integer, as an f-string prints it. *)
Definition str_of_int (n : Z) : str :=
  lit (NilZero.string_of_int (Z.to_int n)).

(** [str.lower] on text of ASCII code points, where it is the usual shift of
    [A-Z]; used to run the engine on concrete inputs. *)
Definition ascii_lower (s : str) : str :=
  List.map (fun c => if ((65 <=? c) && (c <=? 90))%N then (c + 32)%N else c) s.

(** ** Data model *)

(** A page record: [{"file": ..., "page": ..., "text": ...}]. *)
Record Doc := mkDoc { file : str; page : Z; text : str }.

(** An element of [scored]:
    [(score, file, page, snippet, start_offset, end_offset)]. *)
Record Scored := mkScored {
  s_score : Z; s_file : str; s_page : Z;
  s_snippet : str; s_start : Z; s_end : Z }.

(** ** The lexical tier of [search_pdfs] *)

Section Lexical.

(** [str.lower]: its Unicode tables are the interpreter's, so the tier is
    stated for any such function. *)
Variable lower : str -> str.

(** [_tokenize_query] *)
Definition _tokenize_query (query : str) : list str :=
  List.filter (fun t => negb (is_nil t)) (findall_alnum (lower query) []).

(** [sum(txt.count(t) for t in tokens)] *)
Definition score_of (tokens : list str) (txt : str) : Z :=
  fold_right Z.add 0 (List.map (count txt) tokens).

(** [min((txt.find(t) for t in tokens if txt.find(t) >= 0), default=-1)] *)
Definition first_pos_of (tokens : list str) (txt : str) : Z :=
  match List.filter (fun p => 0 <=? p) (List.map (find txt) tokens) with
  | [] => -1
  | p :: ps => fold_left Z.min ps p
  end.

(** The body of the loop over [_INDEX]: the tuple appended for [doc], if
    one is. *)
Definition score_doc (tokens : list str) (doc : Doc) : option Scored :=
  let txt := lower (text doc) in
  let score := score_of tokens txt in
  if 0 <? score then
    let first_pos := first_pos_of tokens txt in
    let '(start_offset, end_offset) :=
      if 0 <=? first_pos then
        let start_offset := Z.max 0 first_pos in
        (start_offset, Z.min (len (text doc)) (start_offset + 300))
      else (0, Z.min (len (text doc)) 200) in
    let snippet :=
      replace_newlines (slice (text doc) start_offset end_offset) in
    Some (mkScored score (file doc) (page doc) snippet
                   start_offset end_offset)
  else None.

(** [scored] after the loop. *)
Definition scored_of (tokens : list str) (index : list Doc) : list Scored :=
  omap (score_doc tokens) index.

(** [scored.sort(key=lambda x: x[0], reverse=True)]: Python's sort is
    stable, also in reverse; elements are inserted from the right, each
    before the first element whose key is not larger. *)
Fixpoint insert_desc {A} (key : A -> Z) (x : A) (l : list A) : list A :=
  match l with
  | [] => [x]
  | y :: l' =>
      if key y <=? key x then x :: l else y :: insert_desc key x l'
  end.

Definition sort_desc {A} (key : A -> Z) (l : list A) : list A :=
  fold_right (insert_desc key) [] l.

(** [results]: what the tier keeps, [None] where the code returns [None];
    the tier is entered with [top_k > 0] only. *)
Definition lexical_results (index : list Doc) (tokens : list str)
    (top_k : Z) : option (list Scored) :=
  if is_nil index then None
  else if is_nil tokens then None
  else
    let scored := scored_of tokens index in
    if is_nil scored then None
    else Some (take (Z.to_nat top_k) (sort_desc s_score scored)).

(** One citation line of the answer. *)
Definition render_line (r : Scored) : str :=
  lit "> - **Source:** " ++ s_file r ++ lit " | **Page:** "
    ++ str_of_int (s_page r) ++ lit " | **Offsets:** "
    ++ str_of_int (s_start r) ++ lit "-" ++ str_of_int (s_end r)
    ++ [10%N] ++ lit ">   > _" ++ strip (s_snippet r) ++ lit "_" ++ [10%N].

(** ["\n".join(md_lines)] *)
Definition render (results : list Scored) : str :=
  join [10%N]
    ((lit "> **Answer (grounded snippets):**" ++ [10%N])
       :: List.map render_line results).

End Lexical.

(** ** Ingestion: the world [index_pdfs] runs in *)

(** What [page.extract_text()] does for one page: it returns a string or
    [None], or raises. *)
Inductive PageRead :=
| PageText (t : option str)
| PageRaises.

(** One element [f] of [sorted(glob.glob(os.path.join(dir_path, "*.pdf")))],
    with what the pass can observe of it: [os.path.abspath(f)],
    [os.path.basename(f)], [_hash_file(f)] ([None] when it raises), whether
    [pdfplumber.open(f)] succeeds, and the pages of the document. *)
Record PdfFile := mkPdfFile {
  f_abs : str;
  f_base : str;
  f_hash : option str;
  f_open : bool;
  f_pages : list PageRead }.

(** A value of the ["files"] dict of the cache: [ce_hash] is
    [entry.get("hash")], [ce_docs] is [entry.get("docs")] when that is a
    list ([None] otherwise). Entries that are not dicts, on which [.get]
    raises, are not modelled. *)
Record CacheEntry := mkCacheEntry {
  ce_hash : option str;
  ce_docs : option (list Doc) }.

(** A directory: the sorted listing of its PDF files and the content of its
    [.rag_index_cache.json]; [d_cache = None] stands for a cache file that
    is absent or that [_load_cache] rejects. Writing the cache file is taken
    to succeed. *)
Record Dir := mkDir {
  d_files : list PdfFile;
  d_cache : option (gmap str CacheEntry) }.

(** [_LAST_INDEX_STATS] *)
Record Stats := mkStats {
  processed_files : Z;
  reused_files : Z;
  deleted_files : Z;
  total_docs : Z }.

(** What is fixed when the module is imported: whether [pdfplumber] was
    imported, [_USE_EMB], [_EMB_AVAILABLE], [_EMB_ENGINE_AVAILABLE], and
    whether the environment has [LTA_USE_EMBEDDINGS] set to ["1"]. *)
Record Config := mkConfig {
  pdfplumber : bool;
  USE_EMB : bool;
  EMB_AVAILABLE : bool;
  EMB_ENGINE_AVAILABLE : bool;
  LTA_USE_EMBEDDINGS : bool }.

(** The tiers [search_pdfs] can enter, and the implicit ingestion. *)
Inductive Tier := ExternalTier | InternalTier | ImplicitIngest | LexicalTier.

Definition default_dir : str := lit "law_pdfs".

Definition empty_stats : Stats := mkStats 0 0 0 0.

(** The locals of the loop over [files]. *)
Record Loop := mkLoop {
  docs : list Doc;
  new_cache : gmap str CacheEntry;
  processed : Z;
  reused : Z }.

(** The [enumerate(pdf.pages, start=1)] loop from page number [i] on: the
    page records appended, and whether the loop ended without raising. *)
Fixpoint extract_pages (base : str) (i : Z) (ps : list PageRead)
    : list Doc * bool :=
  match ps with
  | [] => ([], true)
  | PageRaises :: _ => ([], false)
  | PageText t :: ps' =>
      let txt := strip (default [] t) in
      let '(ds, ok) := extract_pages base (i + 1) ps' in
      ((if is_nil txt then [] else [mkDoc base i txt]) ++ ds, ok)
  end.

(** The [with pdfplumber.open(f) as pdf] block. *)
Definition extract_file (f : PdfFile) : list Doc * bool :=
  if f_open f then extract_pages (f_base f) 1 (f_pages f) else ([], false).

(** The test that lets a file be taken from the cache: an entry under its
    absolute path, with the same hash and a list of docs. *)
Definition reusable (cached_files : gmap str CacheEntry) (f : PdfFile)
    : option (CacheEntry * list Doc) :=
  match f_hash f, cached_files !! f_abs f with
  | Some h, Some e =>
      match ce_hash e, ce_docs e with
      | Some h', Some ds => if decide (h' = h) then Some (e, ds) else None
      | _, _ => None
      end
  | _, _ => None
  end.

(** One iteration of [for f in files]. *)
Definition index_file (cached_files : gmap str CacheEntry) (st : Loop)
    (f : PdfFile) : Loop :=
  match f_hash f with
  | None => mkLoop (docs st) (new_cache st) (processed st + 1) (reused st)
  | Some file_hash =>
      match reusable cached_files f with
      | Some (e, ds) =>
          mkLoop (docs st ++ ds) (<[f_abs f := e]> (new_cache st))
                 (processed st) (reused st + 1)
      | None =>
          let '(file_docs, ok) := extract_file f in
          mkLoop (docs st ++ file_docs)
                 (if ok
                  then <[f_abs f := mkCacheEntry (Some file_hash)
                                                 (Some file_docs)]>
                         (new_cache st)
                  else new_cache st)
                 (processed st + 1) (reused st)
      end
  end.

(** The loop [for f in files], entered with the locals [st]. *)
Definition index_files_from (cached_files : gmap str CacheEntry)
    (st : Loop) (files : list PdfFile) : Loop :=
  fold_left (index_file cached_files) files st.

(** The loop as [index_pdfs] runs it: [docs = []], [new_cache] empty and
    both counters at zero. *)
Definition index_files (cached_files : gmap str CacheEntry)
    (files : list PdfFile) : Loop :=
  index_files_from cached_files (mkLoop [] ∅ 0 0) files.

Section Engine.

Variable lower : str -> str.

(** The embedding vectors, and [model.encode(texts)] after
    [load_embedding_model()]: [None] when either raises. *)
Variable Vec : Type.
Variable encode : list str -> option (list Vec).

(** [_emb_search_index(query, top_k=top_k)] of the external engine:
    [None] when it raises or returns [None]. *)
Variable external_search : str -> Z -> option str.

(** The [try] block of [_emb_search], cosine similarity in floating point
    and its formatting: [None] when it raises. *)
Variable cosine_search : str -> list (Doc * Vec) -> Z -> option str.

(** The module globals and the file system. *)
Record World := mkWorld {
  cfg : Config;
  fs : gmap str Dir;
  INDEX : list Doc;
  INDEX_LOADED : bool;
  EMB_INDEX : list (Doc * Vec);
  LAST_INDEX_STATS : Stats }.

(** The state of a freshly imported module. *)
Definition initial (c : Config) (disk : gmap str Dir) : World :=
  mkWorld c disk [] false [] empty_stats.

(** [_ensure_dir]: [os.makedirs(path, exist_ok=True)]. *)
Definition _ensure_dir (disk : gmap str Dir) (path : str) : gmap str Dir :=
  match disk !! path with
  | Some _ => disk
  | None => <[path := mkDir [] None]> disk
  end.

Definition files_of (disk : gmap str Dir) (path : str) : list PdfFile :=
  match disk !! path with Some d => d_files d | None => [] end.

(** The ["files"] dict held by the cache file of directory [path], when
    there is a well-formed one. *)
Definition persisted_cache (disk : gmap str Dir) (path : str)
    : option (gmap str CacheEntry) :=
  disk !! path ≫= d_cache.

(** [_load_cache(dir_path).get("files", {})] *)
Definition cached_files_of (disk : gmap str Dir) (path : str)
    : gmap str CacheEntry :=
  default ∅ (persisted_cache disk path).

(** [_save_cache] *)
Definition _save_cache (disk : gmap str Dir) (path : str)
    (c : gmap str CacheEntry) : gmap str Dir :=
  <[path := mkDir (files_of disk path) (Some c)]> disk.

(** [get_index_diagnostics]: a copy of the stats, and the world after the
    call. *)
Definition get_index_diagnostics (w : World) : Stats * World :=
  (LAST_INDEX_STATS w, w).

(** [index_pdfs(dir_path)]: the returned boolean and the world after the
    call. *)
Definition index_pdfs (w : World) (dir_path : str) : bool * World :=
  let disk := _ensure_dir (fs w) dir_path in
  if negb (pdfplumber (cfg w)) then
    (false, mkWorld (cfg w) disk (INDEX w) (INDEX_LOADED w) (EMB_INDEX w)
                    (LAST_INDEX_STATS w))
  else
    let files := files_of disk dir_path in
    let cached_files := cached_files_of disk dir_path in
    if is_nil files then
      (true, mkWorld (cfg w) (_save_cache disk dir_path ∅) [] true []
                     (mkStats 0 0 (Z.of_nat (size cached_files)) 0))
    else
      let st := index_files cached_files files in
      let deleted :=
        Z.max 0 (Z.of_nat (size cached_files)
                 - Z.of_nat (size (new_cache st))) in
      let emb :=
        if USE_EMB (cfg w) && EMB_AVAILABLE (cfg w) then
          match encode (List.map text (docs st)) with
          | Some vecs => zip (docs st) vecs
          | None => EMB_INDEX w
          end
        else EMB_INDEX w in
      (true, mkWorld (cfg w) (_save_cache disk dir_path (new_cache st))
                     (docs st) true emb
                     (mkStats (processed st) (reused st) deleted
                              (len (docs st)))).

(** [clear_index] *)
Definition clear_index (w : World) : World :=
  mkWorld (cfg w) (fs w) [] true [] empty_stats.

(** [_emb_search] *)
Definition _emb_search (w : World) (query : str) (top_k : Z) : option str :=
  if is_nil (EMB_INDEX w) || negb (EMB_AVAILABLE (cfg w)) then None
  else cosine_search query (EMB_INDEX w) top_k.

(** [if emb_res: return emb_res] *)
Definition truthy (r : option str) : option str :=
  match r with
  | Some s => if is_nil s then None else Some s
  | None => None
  end.

(** [search_pdfs(query, top_k)]: the returned value, the world after the
    call, and the tiers entered, in order. *)
Definition search_pdfs (w : World) (query : str) (top_k : Z)
    : option str * World * list Tier :=
  if is_nil query || is_nil (strip query) then (None, w, [])
  else if top_k <=? 0 then (None, w, [])
  else
    let '(r1, t1) :=
      if LTA_USE_EMBEDDINGS (cfg w) && EMB_ENGINE_AVAILABLE (cfg w)
      then (truthy (external_search query top_k), [ExternalTier])
      else (None, []) in
    match r1 with
    | Some res => (Some res, w, t1)
    | None =>
        let '(r2, t2) :=
          if USE_EMB (cfg w) && EMB_AVAILABLE (cfg w)
          then (truthy (_emb_search w query top_k), [InternalTier])
          else (None, []) in
        match r2 with
        | Some res => (Some res, w, t1 ++ t2)
        | None =>
            let '(w', t3) :=
              if INDEX_LOADED w then (w, [])
              else (snd (index_pdfs w default_dir), [ImplicitIngest]) in
            (render <$> lexical_results lower (INDEX w')
                          (_tokenize_query lower (strip query)) top_k,
             w', t1 ++ t2 ++ t3 ++ [LexicalTier])
        end
    end.

(** The worlds the engine can be in: a freshly imported module, then any
    sequence of calls, the files on disk changing in between. *)
Inductive reachable : World -> Prop :=
| reach_initial c disk : reachable (initial c disk)
| reach_disk w disk :
    reachable w ->
    reachable (mkWorld (cfg w) disk (INDEX w) (INDEX_LOADED w)
                       (EMB_INDEX w) (LAST_INDEX_STATS w))
| reach_index w dir :
    reachable w -> reachable (snd (index_pdfs w dir))
| reach_clear w : reachable w -> reachable (clear_index w)
| reach_search w query top_k :
    reachable w ->
    reachable (snd (fst (search_pdfs w query top_k))).

End Engine.

Arguments mkWorld {Vec}.
Arguments cfg {Vec}.
Arguments fs {Vec}.
Arguments INDEX {Vec}.
Arguments INDEX_LOADED {Vec}.
Arguments EMB_INDEX {Vec}.
Arguments LAST_INDEX_STATS {Vec}.
Arguments initial {Vec}.
Arguments get_index_diagnostics {Vec}.
Arguments index_pdfs {Vec}.
Arguments clear_index {Vec}.
Arguments _emb_search {Vec}.
Arguments search_pdfs lower {Vec}.
Arguments reachable lower {Vec}.

(** ** Notions the properties are stated with *)

(** [sub] occurs in [s] at offset [i]. *)
Definition occurs_at (sub s : str) (i : Z) : Prop :=
  0 <= i /\ starts_with sub (drop (Z.to_nat i) s) = true.

(** The score of a page: the sum over the tokens of the occurrence counts in
    its lowercased text. *)
Definition page_score (lower : str -> str) (tokens : list str) (d : Doc) : Z :=
  score_of tokens (lower (text d)).

(** The tuples of [scored], each with the position in the index of the page
    it comes from; positions are counted from [n]. *)
Fixpoint iscored_from (lower : str -> str) (tokens : list str)
    (n : nat) (index : list Doc) : list (nat * Scored) :=
  match index with
  | [] => []
  | d :: ds =>
      match score_doc lower tokens d with
      | Some r => (n, r) :: iscored_from lower tokens (S n) ds
      | None => iscored_from lower tokens (S n) ds
      end
  end.

(** The order of a stable descending sort: a larger key first, and for equal
    keys the smaller position first. *)
Definition by_score_then_index {A} (key : A -> Z) (x y : nat * A) : Prop :=
  key (snd y) < key (snd x)
  \/ (key (snd y) = key (snd x) /\ (fst x < fst y)%nat).

(** The pages with a positive score, as positions of the index, in the
    order [sort_desc] leaves their tuples in. *)
Definition ranking (lower : str -> str) (tokens : list str)
    (index : list Doc) : list (nat * Scored) :=
  sort_desc (s_score ∘ snd) (iscored_from lower tokens 0 index).

(** What the pass keeps of a file: its cache entry and its pages; [None]
    for a file the pass skips (unreadable, or not in the cache and failing
    to extract). *)
Definition kept (cached_files : gmap str CacheEntry) (f : PdfFile)
    : option (CacheEntry * list Doc) :=
  match f_hash f with
  | None => None
  | Some h =>
      match reusable cached_files f with
      | Some hit => Some hit
      | None =>
          let '(file_docs, ok) := extract_file f in
          if ok then Some (mkCacheEntry (Some h) (Some file_docs), file_docs)
          else None
      end
  end.

Definition skipped (cached_files : gmap str CacheEntry) (f : PdfFile) : bool :=
  match kept cached_files f with Some _ => false | None => true end.

(** The pages the pass keeps of a file. *)
Definition kept_docs (cached_files : gmap str CacheEntry) (f : PdfFile)
    : list Doc :=
  match kept cached_files f with Some (_, ds) => ds | None => [] end.

(** A file on which the extraction is run and raises: it is hashed, it is
    not taken from the cache, and [pdfplumber.open] or a page fails. *)
Definition extraction_raises (cached_files : gmap str CacheEntry)
    (f : PdfFile) : bool :=
  match f_hash f, reusable cached_files f with
  | Some _, None => negb (snd (extract_file f))
  | _, _ => false
  end.

(** Two runs of the loop that agree on the cache built and on the reused
    count, and differ by [k] in the processed count. *)
Definition same_but_processed (k : Z) (st st' : Loop) : Prop :=
  new_cache st' = new_cache st /\ reused st' = reused st
  /\ processed st' = processed st + k.

(** The number of cache entries whose absolute path is not among the
    directory's current PDF files. *)
Definition stale_entries (cached_files : gmap str CacheEntry)
    (files : list PdfFile) : nat :=
  length (List.filter
            (fun k => negb (bool_decide (k ∈ f_abs <$> files)))
            (map_to_list cached_files).*1).

(** ** Sample corpus *)

Definition sample_config : Config := mkConfig true false false false false.

Definition no_vectors (texts : list str) : option (list unit) := None.
Definition no_external (query : str) (top_k : Z) : option str := None.
Definition no_cosine (query : str) (index : list (Doc * unit)) (top_k : Z)
    : option str := None.

Definition ipc_pdf : PdfFile :=
  mkPdfFile (lit "/law/ipc.pdf") (lit "ipc.pdf") (Some (lit "3b1f")) true
    [PageText (Some (lit
       "Cheating is covered under IPC 420 and related provisions."));
     PageText None;
     PageText (Some (lit
       " Whoever cheats: cheating, CHEATING by personation. "))].

Definition bns_pdf : PdfFile :=
  mkPdfFile (lit "/law/bns.pdf") (lit "bns.pdf") (Some (lit "9c4e")) true
    [PageText (Some (lit "BNS 318 replaces the offence of cheating."))].

(** An encrypted file: [pdfplumber.open] raises. *)
Definition locked_pdf : PdfFile :=
  mkPdfFile (lit "/law/locked.pdf") (lit "locked.pdf") (Some (lit "77aa"))
    false [].

Definition law_dir : str := lit "law".

Definition sample_world : World unit :=
  initial sample_config {[ law_dir := mkDir [bns_pdf; ipc_pdf] None ]}.

Definition world_with_locked : World unit :=
  initial sample_config
    {[ law_dir := mkDir [bns_pdf; ipc_pdf; locked_pdf] None ]}.

Definition world_only_locked : World unit :=
  initial sample_config {[ law_dir := mkDir [locked_pdf] None ]}.

(** [/law/old.pdf], cached by an earlier pass, was renamed to
    [/law/new.pdf]. *)
Definition renamed_pdf : PdfFile :=
  mkPdfFile (lit "/law/new.pdf") (lit "new.pdf") (Some (lit "5d20")) true
    [PageText (Some (lit "Section 420."))].

Definition cache_before_rename : gmap str CacheEntry :=
  {[ lit "/law/old.pdf" :=
       mkCacheEntry (Some (lit "5d20"))
                    (Some [mkDoc (lit "old.pdf") 1 (lit "Section 420.")]) ]}.

Definition world_after_rename : World unit :=
  initial sample_config
    {[ law_dir := mkDir [renamed_pdf] (Some cache_before_rename) ]}.

(** A directory emptied of its two PDF files, with the cache of the pass
    that indexed them. *)
Definition world_emptied : World unit :=
  initial sample_config
    {[ law_dir :=
         mkDir [] (Some (cached_files_of
                           (fs (snd (index_pdfs no_vectors sample_world
                                                law_dir)))
                           law_dir)) ]}.

Definition world_without_pdfplumber : World unit :=
  mkWorld (mkConfig false false false false false)
          {[ law_dir := mkDir [bns_pdf] (Some cache_before_rename) ]}
          [mkDoc (lit "old.pdf") 1 (lit "Section 420.")] true []
          (mkStats 1 0 0 1).

Definition sample_index : list Doc :=
  INDEX (snd (index_pdfs no_vectors sample_world law_dir)).

Definition sample_tokens : list str :=
  _tokenize_query ascii_lower (strip (lit "cheating")).

(** The results of the lexical tier for the query [cheating] on the sample
    corpus, and the first of them. *)
Definition sample_results : list Scored :=
  Eval vm_compute in
    default [] (lexical_results ascii_lower sample_index sample_tokens 3).

Definition sample_hit : Scored :=
  Eval vm_compute in hd (mkScored 0 [] 0 [] 0 0) sample_results.

Definition indexed_world : World unit :=
  snd (index_pdfs no_vectors sample_world law_dir).

(** A page whose first 300 characters end in blanks, and whose only
    lowercase [a] is at offset 300. *)
Definition padded_doc : Doc :=
  mkDoc (lit "law.pdf") 1 (lit "A" ++ repeat 32%N 299 ++ lit "a").

(** ** Further notions and functions *)

(** [sub in s] *)
Definition contains (s sub : str) : Prop := 0 <= find s sub.

(** The pages of the index with a positive score. *)
Definition positive_pages (lower : str -> str) (tokens : list str)
    (index : list Doc) : list Doc :=
  List.filter (fun d => 0 <? page_score lower tokens d) index.

(** The first line of a lexical answer, without its newline. *)
Definition answer_header : str := lit "> **Answer (grounded snippets):**".

(** The directory [path] listed anew as [files], its cache file kept: what
    adding, removing or rewriting PDF files between two passes does. *)
Definition relist {Vec} (w : World Vec) (path : str) (files : list PdfFile)
    : World Vec :=
  mkWorld (cfg w)
          (<[path := mkDir files (persisted_cache (fs w) path)]> (fs w))
          (INDEX w) (INDEX_LOADED w) (EMB_INDEX w) (LAST_INDEX_STATS w).

(** A page record as the extraction builds it: of file [base], numbered
    within [1..n], its text trimmed and not empty. *)
Definition fresh_record (base : str) (n : Z) (d : Doc) : Prop :=
  file d = base /\ 1 <= page d <= n /\ text d <> []
  /\ strip (text d) = text d.

(** *** The cache file as JSON *)

Local Set Warnings "-register-all".

(** A value [json.load] returns. Of a float the engine can only see whether
    it is zero. *)
Inductive Json :=
| JNull
| JBool (b : bool)
| JInt (n : Z)
| JFloat (zero : bool)
| JStr (s : str)
| JList (l : list Json)
| JDict (m : gmap str Json).

(** What the engine finds at [_cache_path(dir_path)]: no file, a file that
    [open] or [json.load] fails on, or a parsed value. *)
Inductive CacheFile :=
| NoFile
| Unreadable
| Parsed (data : Json).

(** [{"files": {}}] *)
Definition empty_cache : Json := JDict {[ lit "files" := JDict ∅ ]}.

(** [isinstance(v, dict)] *)
Definition is_dict (v : Json) : bool :=
  match v with JDict _ => true | _ => false end.

(** [d.get(key)] on a dict: [None] of Python is [JNull]. *)
Definition dict_get (m : gmap str Json) (key : str) : Json :=
  default JNull (m !! key).

(** [_load_cache] *)
Definition _load_cache (file : CacheFile) : Json :=
  match file with
  | NoFile => empty_cache
  | Unreadable => empty_cache
  | Parsed data =>
      match data with
      | JDict m => if is_dict (dict_get m (lit "files")) then data
                   else empty_cache
      | _ => empty_cache
      end
  end.

(** [cache.get("files", {})] on what [_load_cache] returns. *)
Definition loaded_files (cache : Json) : gmap str Json :=
  match cache with
  | JDict m => match m !! lit "files" with
               | Some (JDict files) => files
               | _ => ∅
               end
  | _ => ∅
  end.

(** [bool(v)] *)
Definition json_truthy (v : Json) : bool :=
  match v with
  | JNull => false
  | JBool b => b
  | JInt n => negb (n =? 0)
  | JFloat zero => negb zero
  | JStr s => negb (is_nil s)
  | JList l => negb (is_nil l)
  | JDict m => negb (bool_decide (m = ∅))
  end.

(** The outcome of the test on the cached entry of a file: the entry is
    reused with its docs, it is not, or [.get] raises on it. *)
Inductive CacheLookup :=
| Hit (entry : Json) (docs : list Json)
| Miss
| AttributeError.

(** [cached_entry = cached_files.get(abs_path)] and the test
    [cached_entry and cached_entry.get("hash") == file_hash and
     isinstance(cached_entry.get("docs"), list)]. *)
Definition cache_lookup (cached_files : gmap str Json)
    (abs_path file_hash : str) : CacheLookup :=
  let cached_entry := dict_get cached_files abs_path in
  if json_truthy cached_entry then
    match cached_entry with
    | JDict m =>
        match dict_get m (lit "hash") with
        | JStr h =>
            if decide (h = file_hash) then
              match dict_get m (lit "docs") with
              | JList docs => Hit cached_entry docs
              | _ => Miss
              end
            else Miss
        | _ => Miss
        end
    | _ => AttributeError
    end
  else Miss.

(** [{"file": ..., "page": i, "text": text}] *)
Definition json_of_doc (d : Doc) : Json :=
  JDict (<[lit "file" := JStr (file d)]>
           (<[lit "page" := JInt (page d)]>
              {[ lit "text" := JStr (text d) ]})).

(** An entry of the cache as a dict, with the keys it has;
    [{"hash": file_hash, "docs": file_docs}] for one the pass builds. *)
Definition json_of_entry (e : CacheEntry) : Json :=
  JDict (match ce_hash e with
         | Some h => <[lit "hash" := JStr h]>
         | None => id
         end
           (match ce_docs e with
            | Some ds => {[ lit "docs" := JList (json_of_doc <$> ds) ]}
            | None => ∅
            end)).

(** [{"files": ...}], the value [_save_cache] dumps. *)
Definition json_of_cache (files : gmap str CacheEntry) : Json :=
  JDict {[ lit "files" := JDict (json_of_entry <$> files) ]}.

(** *** [add_pdf] and the start-up of the application *)

(** The path separator of [posixpath]. *)
Definition sep : N := 47%N.

(** [s.rfind(c)] for a character [c], read from offset [i] on, [last] being
    the offset of the last [c] passed. *)
Fixpoint rfind_from (c : N) (s : str) (i last : Z) : Z :=
  match s with
  | [] => last
  | x :: s' => rfind_from c s' (i + 1) (if (x =? c)%N then i else last)
  end.

Definition rfind (s : str) (c : N) : Z := rfind_from c s 0 (-1).

Fixpoint lstrip_char (c : N) (s : str) : str :=
  match s with
  | x :: s' => if (x =? c)%N then lstrip_char c s' else s
  | [] => []
  end.

(** [s.rstrip(c)] for a character [c]. *)
Definition rstrip_char (c : N) (s : str) : str :=
  rev (lstrip_char c (rev s)).

(** [os.path.dirname] on a POSIX system ([posixpath.dirname]): the part of
    [p] up to its last separator, with the trailing separators removed
    unless it has nothing else. *)
Definition dirname (p : str) : str :=
  let i := rfind p sep + 1 in
  let head := slice p 0 i in
  if negb (is_nil head) && negb (forallb (fun x => (x =? sep)%N) head)
  then rstrip_char sep head
  else head.

(** [add_pdf(file_path)] *)
Definition add_pdf {Vec} (encode : list str -> option (list Vec))
    (w : World Vec) (file_path : str) : bool * World Vec :=
  index_pdfs encode w
    (let d := dirname file_path in if is_nil d then default_dir else d).

(** The part of the Streamlit session the start-up block of [app.py] uses:
    [ENGINES_AVAILABLE], [st.session_state.get("pdf_indexed")], and the
    engine. *)
Record Session (Vec : Type) := mkSession {
  ENGINES_AVAILABLE : bool;
  pdf_indexed : bool;
  engine : World Vec }.

Arguments mkSession {Vec}.
Arguments ENGINES_AVAILABLE {Vec}.
Arguments pdf_indexed {Vec}.
Arguments engine {Vec}.

(** The start-up block of [app.py], run at every rerun of the script:
    [if ENGINES_AVAILABLE and not st.session_state.get("pdf_indexed"):
       index_pdfs("law_pdfs"); st.session_state.pdf_indexed = True].
    The value [index_pdfs] returns is not looked at. The call is taken to
    return: were it to raise, the block would swallow the exception and
    leave [pdf_indexed] unset. *)
Definition startup {Vec} (encode : list str -> option (list Vec))
    (s : Session Vec) : Session Vec :=
  if ENGINES_AVAILABLE s && negb (pdf_indexed s) then
    mkSession (ENGINES_AVAILABLE s) true
              (snd (index_pdfs encode (engine s) (lit "law_pdfs")))
  else s.

(** *** More sample data *)

(** The index of the sample corpus, page by page. *)
Definition sample_pages : list Doc :=
  [mkDoc (lit "bns.pdf") 1 (lit "BNS 318 replaces the offence of cheating.");
   mkDoc (lit "ipc.pdf") 1
         (lit "Cheating is covered under IPC 420 and related provisions.");
   mkDoc (lit "ipc.pdf") 3
         (lit "Whoever cheats: cheating, CHEATING by personation.")].

(** [ipc.pdf] after an edit: another hash, another text. *)
Definition ipc_pdf_edited : PdfFile :=
  mkPdfFile (lit "/law/ipc.pdf") (lit "ipc.pdf") (Some (lit "e07c")) true
    [PageText (Some (lit "Cheating: see BNS 318."))].

(** An encoder that gives every text the same vector. *)
Definition unit_vectors (texts : list str) : option (list unit) :=
  Some (List.map (fun _ => tt) texts).

Definition world_with_embeddings : World unit :=
  initial (mkConfig true true true false false)
          {[ law_dir := mkDir [bns_pdf; ipc_pdf] None ]}.

Definition fresh_world_without_pdfplumber : World unit :=
  initial (mkConfig false false false false false)
          {[ law_dir := mkDir [bns_pdf] None ]}.

Definition fresh_session : Session unit := mkSession true false sample_world.

(** An external engine that answers every query. *)
Definition sample_external (query : str) (top_k : Z) : option str :=
  Some (lit "> external answer").

Definition world_with_external : World unit :=
  initial (mkConfig true false false true true)
          {[ law_dir := mkDir [bns_pdf; ipc_pdf] None ]}.

(** A file whose second page fails to extract. *)
Definition torn_pdf : PdfFile :=
  mkPdfFile (lit "/law/torn.pdf") (lit "torn.pdf") (Some (lit "c1d2")) true
    [PageText (Some (lit "Section 1. Cheating."));
     PageRaises;
     PageText (Some (lit "Section 2."))].

(** * Properties *)

(** ** Strings *)

Example tokenize_demo :
  _tokenize_query ascii_lower (lit "IPC-420, Cheating!")
  = [lit "ipc"; lit "420"; lit "cheating"].
Proof. reflexivity. Qed.

Example count_demo :
  count (lit "aaaa") (lit "aa") = 2 /\ find (lit "xxab") (lit "ab") = 2.
Proof. split; reflexivity. Qed.

Lemma starts_with_nil_r sub : starts_with sub [] = is_nil sub.
Proof. by destruct sub. Qed.

Lemma find_from_cases sub s k :
  (find_from sub s k = -1 /\ forall i : nat, starts_with sub (drop i s) = false)
  \/ (exists i : nat, find_from sub s k = k + Z.of_nat i
        /\ starts_with sub (drop i s) = true
        /\ forall j : nat, (j < i)%nat -> starts_with sub (drop j s) = false).
Proof.
  revert k. induction s as [|c s IH]; intros k; simpl.
  - destruct (starts_with sub []) eqn:E.
    + right. exists 0%nat. split; [lia|]. split; [done|]. intros j Hj; lia.
    + left. split; [done|]. intros i. by rewrite drop_nil.
  - destruct (starts_with sub (c :: s)) eqn:E.
    + right. exists 0%nat. split; [lia|]. split; [done|]. intros j Hj; lia.
    + destruct (IH (k + 1)) as [[H1 H2]|(i & H1 & H2 & H3)].
      * left. split; [done|]. intros [|i]; [done|]. apply H2.
      * right. exists (S i). split; [lia|]. split; [done|].
        intros [|j] Hj; [done|]. apply H3. lia.
Qed.

Lemma count_from_nonneg sub s skip : 0 <= count_from sub s skip.
Proof.
  revert skip. induction s as [|c s IH]; intros skip; simpl; [lia|].
  destruct skip; [|apply IH].
  destruct (starts_with sub (c :: s)); [|apply IH].
  specialize (IH (length sub - 1)%nat). lia.
Qed.

Lemma count_from_pos_occurs sub s skip :
  0 < count_from sub s skip ->
  exists i : nat, starts_with sub (drop i s) = true.
Proof.
  revert skip. induction s as [|c s IH]; intros skip; simpl; [lia|].
  destruct skip as [|k].
  - destruct (starts_with sub (c :: s)) eqn:E.
    + intros _. by exists 0%nat.
    + intros H. destruct (IH _ H) as [i Hi]. by exists (S i).
  - intros H. destruct (IH _ H) as [i Hi]. by exists (S i).
Qed.

Lemma count_nonneg s sub : 0 <= count s sub.
Proof.
  unfold count, len. destruct (is_nil sub); [lia|apply count_from_nonneg].
Qed.

Lemma count_pos_find s sub : 0 < count s sub -> 0 <= find s sub.
Proof.
  unfold count, find. intros H.
  destruct (find_from_cases sub s 0) as [[_ Hno]|(i & -> & _)]; [|lia].
  destruct sub as [|a sub]; simpl in H.
  - specialize (Hno 0%nat). by destruct s.
  - apply count_from_pos_occurs in H as [i Hi]. by rewrite Hno in Hi.
Qed.

Lemma find_ge_m1 s sub : -1 <= find s sub.
Proof.
  unfold find. destruct (find_from_cases sub s 0) as [[-> _]|(i & -> & _)]; lia.
Qed.

Lemma find_occurs s sub :
  0 <= find s sub ->
  occurs_at sub s (find s sub)
  /\ forall i, 0 <= i < find s sub -> ~ occurs_at sub s i.
Proof.
  unfold find, occurs_at.
  destruct (find_from_cases sub s 0) as [[-> _]|(i & -> & Hi & Hlt)]; [lia|].
  intros _. split.
  - split; [lia|]. by replace (Z.to_nat (0 + Z.of_nat i)) with i by lia.
  - intros j Hj [_ Hocc]. rewrite Hlt in Hocc; [done|lia].
Qed.

Lemma find_none s sub i : find s sub < 0 -> ~ occurs_at sub s i.
Proof.
  unfold find, occurs_at. intros Hlt.
  destruct (find_from_cases sub s 0) as [[_ Hno]|(j & Hj & _)]; [|lia].
  intros [_ H]. by rewrite Hno in H.
Qed.

Lemma score_of_nonneg tokens txt : 0 <= score_of tokens txt.
Proof.
  unfold score_of. induction tokens as [|t ts IH]; simpl; [done|].
  pose proof (count_nonneg txt t). lia.
Qed.

Lemma score_of_pos tokens txt :
  0 < score_of tokens txt -> exists t, t ∈ tokens /\ 0 < count txt t.
Proof.
  unfold score_of. induction tokens as [|t ts IH]; simpl; [lia|].
  intros H. destruct (decide (0 < count txt t)) as [Hc|Hc].
  - exists t. split; [left|done].
  - pose proof (count_nonneg txt t).
    destruct IH as (t' & Hin & Ht'); [lia|].
    exists t'. split; [by right|done].
Qed.

Lemma fold_left_min_init ps p : fold_left Z.min ps p <= p.
Proof.
  revert p. induction ps as [|q ps IH]; intros p; simpl; [lia|].
  specialize (IH (Z.min p q)). lia.
Qed.

Lemma fold_left_min_le ps p x : x ∈ p :: ps -> fold_left Z.min ps p <= x.
Proof.
  revert p. induction ps as [|q ps IH]; intros p Hx; simpl.
  - apply list_elem_of_singleton in Hx. lia.
  - pose proof (fold_left_min_init ps (Z.min p q)).
    apply elem_of_cons in Hx as [->|Hx]; [lia|].
    apply elem_of_cons in Hx as [->|Hx]; [lia|].
    apply IH. by right.
Qed.

Lemma fold_left_min_in ps p : fold_left Z.min ps p ∈ p :: ps.
Proof.
  revert p. induction ps as [|q ps IH]; intros p; simpl; [left|].
  specialize (IH (Z.min p q)).
  apply elem_of_cons in IH as [->|IH]; [|by do 2 right].
  destruct (Z.min_spec p q) as [[_ ->]|[_ ->]]; [left|right; left].
Qed.

Lemma first_pos_of_cases tokens txt :
  (first_pos_of tokens txt = -1 /\ forall t, t ∈ tokens -> find txt t < 0)
  \/ (0 <= first_pos_of tokens txt
      /\ (exists t, t ∈ tokens /\ find txt t = first_pos_of tokens txt)
      /\ forall t, t ∈ tokens -> 0 <= find txt t ->
           first_pos_of tokens txt <= find txt t).
Proof.
  unfold first_pos_of.
  destruct (List.filter _ _) as [|p ps] eqn:E.
  - left. split; [done|]. intros t Ht.
    destruct (Z.leb_spec 0 (find txt t)) as [H|H]; [|done].
    assert (In (find txt t) []) as [].
    rewrite <- E. apply filter_In. split; [|by apply Z.leb_le].
    apply in_map. by apply list_elem_of_In.
  - right.
    assert (Hmem : forall x, x ∈ p :: ps <->
              (exists t, t ∈ tokens /\ find txt t = x) /\ 0 <= x).
    { intros x. rewrite <- E, list_elem_of_In, filter_In, in_map_iff, Z.leb_le.
      split; intros [(t & Ht1 & Ht2) Hx]; (split; [|done]); exists t;
        rewrite ?list_elem_of_In in *; done. }
    pose proof (fold_left_min_in ps p) as Hin. apply Hmem in Hin as [Ht Hge].
    split; [done|]. split; [done|].
    intros t Ht1 Ht2. apply fold_left_min_le. apply Hmem. eauto.
Qed.

(** ** Stable descending sort *)

Lemma insert_desc_perm {A} (key : A -> Z) x l :
  insert_desc key x l ≡ₚ x :: l.
Proof.
  induction l as [|y l IH]; simpl; [done|].
  destruct (key y <=? key x); [done|].
  rewrite IH. apply Permutation_swap.
Qed.

Lemma sort_desc_perm {A} (key : A -> Z) l : sort_desc key l ≡ₚ l.
Proof.
  induction l as [|x l IH]; simpl; [done|].
  by rewrite insert_desc_perm, IH.
Qed.

Section SortFacts.
Context {A : Type} (key : A -> Z).

Lemma insert_desc_fmap {B} (f : B -> A) x l :
  insert_desc key (f x) (f <$> l) = f <$> insert_desc (key ∘ f) x l.
Proof.
  induction l as [|y l IH]; csimpl; [done|].
  destruct (key (f y) <=? key (f x)); [done|]. by rewrite IH.
Qed.

Lemma sort_desc_fmap {B} (f : B -> A) l :
  sort_desc key (f <$> l) = f <$> sort_desc (key ∘ f) l.
Proof.
  unfold sort_desc. induction l as [|x l IH]; csimpl; [done|].
  by rewrite IH, insert_desc_fmap.
Qed.

Lemma insert_desc_stable (x : nat * A) l :
  StronglySorted (by_score_then_index key) l ->
  Forall (fun y => (fst x < fst y)%nat) l ->
  StronglySorted (by_score_then_index key) (insert_desc (key ∘ snd) x l).
Proof.
  induction 1 as [|y l Hl IH Hy]; intros Hx; simpl.
  - repeat constructor.
  - apply Forall_cons in Hx as [Hxy Hx].
    destruct (Z.leb_spec (key (snd y)) (key (snd x))) as [Hle|Hlt].
    + constructor; [by constructor|]. constructor.
      * unfold by_score_then_index. lia.
      * rewrite Forall_forall in *. intros z Hz.
        specialize (Hy z Hz). specialize (Hx z Hz).
        unfold by_score_then_index in *. lia.
    + constructor; [by apply IH|].
      rewrite insert_desc_perm. constructor; [|done].
      unfold by_score_then_index. lia.
Qed.

Lemma sort_desc_stable (l : list (nat * A)) :
  StronglySorted (fun x y => (fst x < fst y)%nat) l ->
  StronglySorted (by_score_then_index key) (sort_desc (key ∘ snd) l).
Proof.
  induction 1 as [|x l Hl IH Hx]; simpl; [constructor|].
  apply insert_desc_stable; [done|]. by rewrite sort_desc_perm.
Qed.
End SortFacts.

Lemma StronglySorted_lookup_lt {A} (R : relation A) l a b x y :
  StronglySorted R l -> (a < b)%nat ->
  l !! a = Some x -> l !! b = Some y -> R x y.
Proof.
  intros Hl. revert a b. induction Hl as [|z l Hl IH Hz]; intros a b Hab Ha Hb.
  - done.
  - destruct b as [|b]; [lia|]. simpl in Hb. destruct a as [|a]; simpl in Ha.
    + injection Ha as ->. rewrite Forall_forall in Hz. apply Hz.
      by eapply list_elem_of_lookup_2.
    + eapply IH; [|done..]. lia.
Qed.

Section Ranking.
Variable lower : str -> str.
Variable tokens : list str.

Lemma score_doc_Some d r :
  score_doc lower tokens d = Some r ->
  s_score r = page_score lower tokens d /\ 0 < page_score lower tokens d
  /\ s_file r = file d /\ s_page r = page d.
Proof.
  unfold score_doc, page_score.
  destruct (Z.ltb_spec 0 (score_of tokens (lower (text d)))) as [H|H]; [|done].
  destruct (0 <=? first_pos_of tokens (lower (text d)));
    intros [= <-]; simpl; done.
Qed.

Lemma score_doc_is_Some d :
  0 < page_score lower tokens d -> is_Some (score_doc lower tokens d).
Proof.
  unfold score_doc, page_score. intros H.
  destruct (Z.ltb_spec 0 (score_of tokens (lower (text d)))); [|lia].
  destruct (0 <=? first_pos_of tokens (lower (text d))); eauto.
Qed.

Lemma iscored_from_snd n index :
  snd <$> iscored_from lower tokens n index = scored_of lower tokens index.
Proof.
  revert n. induction index as [|d ds IH]; intros n; csimpl; [done|].
  unfold scored_of in *. simpl.
  destruct (score_doc lower tokens d); csimpl; by rewrite IH.
Qed.

Lemma elem_of_iscored_from n index i r :
  (i, r) ∈ iscored_from lower tokens n index <->
  exists d, (n <= i)%nat /\ index !! (i - n)%nat = Some d
            /\ score_doc lower tokens d = Some r.
Proof.
  revert n. induction index as [|d ds IH]; intros n; simpl.
  - split; [by intros ?%elem_of_nil|]. by intros (d & _ & ? & _).
  - assert (Htl : (i, r) ∈ iscored_from lower tokens (S n) ds <->
              exists d', (S n <= i)%nat /\ (d :: ds) !! (i - n)%nat = Some d'
                         /\ score_doc lower tokens d' = Some r).
    { rewrite IH. split; intros (d' & Hle & Hl & Hs); exists d';
        (split; [done|]); (split; [|done]).
      - by replace (i - n)%nat with (S (i - S n)) by lia.
      - by replace (i - n)%nat with (S (i - S n)) in Hl by lia. }
    assert (Hhd : forall d', (n <= i)%nat ->
              (d :: ds) !! (i - n)%nat = Some d' ->
              ~ (S n <= i)%nat -> i = n /\ d' = d).
    { intros d' H1 H2 H3. assert (i = n) as -> by lia.
      rewrite Nat.sub_diag in H2. by injection H2 as ->. }
    destruct (score_doc lower tokens d) as [r0|] eqn:E.
    + rewrite elem_of_cons, Htl. split.
      * intros [[= -> ->]|(d' & ? & ? & ?)].
        -- exists d. rewrite Nat.sub_diag. done.
        -- exists d'. split; [lia|done].
      * intros (d' & H1 & H2 & H3).
        destruct (decide (S n <= i)%nat) as [Hlt|Hlt]; [right; eauto|].
        destruct (Hhd d' H1 H2 Hlt) as [-> ->]. left. congruence.
    + rewrite Htl. split.
      * intros (d' & ? & ? & ?). exists d'. split; [lia|done].
      * intros (d' & H1 & H2 & H3).
        destruct (decide (S n <= i)%nat) as [Hlt|Hlt]; [eauto|].
        destruct (Hhd d' H1 H2 Hlt) as [-> ->]. congruence.
Qed.

Lemma iscored_from_increasing n index :
  StronglySorted (fun x y => (fst x < fst y)%nat)
                 (iscored_from lower tokens n index).
Proof.
  revert n. induction index as [|d ds IH]; intros n; simpl; [constructor|].
  destruct (score_doc lower tokens d); [|apply IH].
  constructor; [apply IH|]. apply Forall_forall. intros [i r] Hin.
  apply elem_of_iscored_from in Hin as (? & ? & _). simpl. lia.
Qed.

Lemma increasing_NoDup {A} (l : list (nat * A)) :
  StronglySorted (fun x y => (fst x < fst y)%nat) l -> NoDup (fst <$> l).
Proof.
  induction 1 as [|x l Hl IH Hx]; csimpl; constructor; [|done].
  intros (y & Hy1 & Hy2)%list_elem_of_fmap.
  rewrite Forall_forall in Hx. specialize (Hx y Hy2). lia.
Qed.


Lemma elem_of_ranking index i r :
  (i, r) ∈ ranking lower tokens index <->
  exists d, index !! i = Some d /\ score_doc lower tokens d = Some r.
Proof.
  unfold ranking. rewrite sort_desc_perm, elem_of_iscored_from.
  rewrite Nat.sub_0_r. split; intros (d & H); exists d; [tauto|].
  split; [lia|tauto].
Qed.

Lemma sorted_scored_of index :
  sort_desc s_score (scored_of lower tokens index)
  = snd <$> ranking lower tokens index.
Proof.
  unfold ranking. by rewrite <- (iscored_from_snd 0), sort_desc_fmap.
Qed.

Lemma lexical_results_ranking index top_k :
  tokens <> [] ->
  lexical_results lower index tokens top_k
  = if is_nil (ranking lower tokens index) then None
    else Some (take (Z.to_nat top_k) (snd <$> ranking lower tokens index)).
Proof.
  intros Htok. unfold lexical_results.
  destruct index as [|d0 ds]; [done|].
  change (is_nil (d0 :: ds)) with false. cbv iota.
  destruct (is_nil tokens) eqn:Et; [by destruct tokens|].
  cbv zeta. rewrite sorted_scored_of.
  replace (is_nil (scored_of lower tokens (d0 :: ds)))
    with (is_nil (ranking lower tokens (d0 :: ds))); [done|].
  rewrite <- (iscored_from_snd 0). unfold ranking.
  pose proof (sort_desc_perm (s_score ∘ snd)
                (iscored_from lower tokens 0 (d0 :: ds))) as Hp.
  destruct (iscored_from lower tokens 0 (d0 :: ds)) as [|x l].
  - by apply Permutation_nil_r in Hp as ->.
  - destruct (sort_desc _ (x :: l)); [|done].
    by apply Permutation_nil_cons in Hp.
Qed.
End Ranking.

Section RankedResults.
Variable lower : str -> str.

End RankedResults.

(** ** Snippet windows *)

Section Snippets.
Variable lower : str -> str.

Lemma score_doc_fields tokens d r :
  score_doc lower tokens d = Some r ->
  s_snippet r = replace_newlines (slice (text d) (s_start r) (s_end r))
  /\ (0 <= first_pos_of tokens (lower (text d)) ->
      s_start r = first_pos_of tokens (lower (text d))
      /\ s_end r = Z.min (len (text d)) (s_start r + 300))
  /\ (first_pos_of tokens (lower (text d)) < 0 ->
      s_start r = 0 /\ s_end r = Z.min (len (text d)) 200).
Proof.
  unfold score_doc.
  destruct (0 <? score_of tokens (lower (text d))); [|done].
  destruct (Z.leb_spec 0 (first_pos_of tokens (lower (text d)))) as [H|H];
    intros [= <-]; simpl; (split; [done|]); split; intros ?; try lia.
Qed.

Lemma first_pos_of_earliest tokens txt :
  0 <= first_pos_of tokens txt ->
  (exists t, t ∈ tokens /\ occurs_at t txt (first_pos_of tokens txt))
  /\ forall t i, t ∈ tokens -> 0 <= i < first_pos_of tokens txt ->
       ~ occurs_at t txt i.
Proof.
  intros Hp.
  destruct (first_pos_of_cases tokens txt)
    as [[? _]|(_ & (t & Ht & Hf) & Hmin)];
    [lia|]. split.
  - exists t. split; [done|]. rewrite <- Hf. apply find_occurs. lia.
  - intros t' i Ht' Hi.
    destruct (Z.le_gt_cases 0 (find txt t')) as [Hge|Hlt].
    + apply find_occurs; [done|]. specialize (Hmin t' Ht' Hge). lia.
    + by apply find_none.
Qed.

Lemma first_pos_of_absent tokens txt :
  first_pos_of tokens txt < 0 ->
  forall t i, t ∈ tokens -> ~ occurs_at t txt i.
Proof.
  intros Hp t i Ht.
  destruct (first_pos_of_cases tokens txt) as [[_ Hno]|(? & _)]; [|lia].
  apply find_none. by apply Hno.
Qed.

Lemma lexical_results_elem index tokens top_k results r :
  lexical_results lower index tokens top_k = Some results ->
  r ∈ results ->
  exists d, d ∈ index /\ score_doc lower tokens d = Some r.
Proof.
  unfold lexical_results.
  destruct (is_nil index); [done|]. destruct (is_nil tokens); [done|].
  cbv zeta. destruct (is_nil (scored_of lower tokens index)); [done|].
  intros [= <-] Hr. apply elem_of_take in Hr as (n & Hr & _).
  apply list_elem_of_lookup_2 in Hr. rewrite sort_desc_perm in Hr.
  by apply list_elem_of_omap in Hr.
Qed.

(** C2, as amended. Every tuple the lexical tier returns comes from a page of
    the index and reports a window on its text: the start offset is the
    earliest offset at which a token occurs in the lowercased text and the
    end offset is [min(len(text), start + 300)] (or no token occurs at all,
    and the window is [0] to [min(len(text), 200)]); the snippet shown in
    the answer is the slice [text[start:end]] with newlines replaced by
    blanks and then stripped of leading and trailing whitespace. *)
Theorem lexical_snippet_window index tokens top_k results r :
  lexical_results lower index tokens top_k = Some results ->
  r ∈ results ->
  exists d, d ∈ index /\ s_file r = file d /\ s_page r = page d
    /\ ((exists t, t ∈ tokens /\ occurs_at t (lower (text d)) (s_start r))
        /\ (forall t i, t ∈ tokens -> 0 <= i < s_start r ->
              ~ occurs_at t (lower (text d)) i)
        /\ s_end r = Z.min (len (text d)) (s_start r + 300)
        \/ (forall t i, t ∈ tokens -> ~ occurs_at t (lower (text d)) i)
           /\ s_start r = 0 /\ s_end r = Z.min (len (text d)) 200)
    /\ render_line r
       = lit "> - **Source:** " ++ file d ++ lit " | **Page:** "
           ++ str_of_int (page d) ++ lit " | **Offsets:** "
           ++ str_of_int (s_start r) ++ lit "-" ++ str_of_int (s_end r)
           ++ [10%N] ++ lit ">   > _"
           ++ strip (replace_newlines
                       (slice (text d) (s_start r) (s_end r)))
           ++ lit "_" ++ [10%N].
Proof.
  intros Hres Hr.
  destruct (lexical_results_elem _ _ _ _ _ Hres Hr) as (d & Hd & Hs).
  exists d. split; [done|].
  destruct (score_doc_Some _ _ _ _ Hs) as (_ & _ & Hf & Hp).
  destruct (score_doc_fields _ _ _ Hs) as (Hsn & Hfound & Hnone).
  split; [done|]. split; [done|]. split.
  - destruct (Z.le_gt_cases 0 (first_pos_of tokens (lower (text d))))
      as [Hge|Hlt].
    + left. destruct (Hfound Hge) as [-> ->].
      destruct (first_pos_of_earliest _ _ Hge) as [H1 H2]. done.
    + right. destruct (Hnone Hlt) as [-> ->].
      split; [|done]. by apply first_pos_of_absent.
  - unfold render_line. by rewrite Hsn, Hf, Hp.
Qed.

(** C10. A page with a positive score has a token that occurs in its
    lowercased text, so [first_pos] is not negative: the tuple built for the
    page takes the branch of the 300-character window, which starts where a
    token occurs; the 200-character branch is never taken. *)
Theorem positive_score_has_position tokens d :
  0 < page_score lower tokens d ->
  (exists t, t ∈ tokens /\ 0 < count (lower (text d)) t
             /\ 0 <= find (lower (text d)) t)
  /\ 0 <= first_pos_of tokens (lower (text d))
  /\ exists r, score_doc lower tokens d = Some r
       /\ s_start r = first_pos_of tokens (lower (text d))
       /\ (exists t, t ∈ tokens /\ occurs_at t (lower (text d)) (s_start r))
       /\ s_end r = Z.min (len (text d)) (s_start r + 300).
Proof.
  intros Hpos. pose proof Hpos as Hsc.
  apply score_of_pos in Hsc as (t & Ht & Hc).
  pose proof (count_pos_find _ _ Hc) as Hf.
  assert (Hfp : 0 <= first_pos_of tokens (lower (text d))).
  { destruct (first_pos_of_cases tokens (lower (text d)))
      as [[_ Hno]|(? & _)]; [|done]. specialize (Hno t Ht). lia. }
  split; [eauto|]. split; [done|].
  destruct (score_doc_is_Some _ _ _ Hpos) as [r Hr]. exists r.
  destruct (score_doc_fields _ _ _ Hr) as (_ & Hfound & _).
  destruct (Hfound Hfp) as [Hs He].
  split; [done|]. split; [done|]. split; [|done].
  rewrite Hs. by apply first_pos_of_earliest.
Qed.
End Snippets.

(** ** The file system and the diagnostics *)

Lemma files_of_ensure_dir disk path :
  files_of (_ensure_dir disk path) path = files_of disk path.
Proof.
  unfold files_of, _ensure_dir. destruct (disk !! path) eqn:E.
  - by rewrite E.
  - by rewrite lookup_insert_eq.
Qed.

Lemma persisted_cache_ensure_dir disk path path' :
  persisted_cache (_ensure_dir disk path) path' = persisted_cache disk path'.
Proof.
  unfold persisted_cache, _ensure_dir. destruct (disk !! path) eqn:E; [done|].
  destruct (decide (path = path')) as [<-|Hne].
  - by rewrite lookup_insert_eq, E.
  - by rewrite lookup_insert_ne.
Qed.

Lemma cached_files_of_ensure_dir disk path :
  cached_files_of (_ensure_dir disk path) path = cached_files_of disk path.
Proof. unfold cached_files_of. by rewrite persisted_cache_ensure_dir. Qed.

Lemma persisted_cache_save disk path c :
  persisted_cache (_save_cache disk path c) path = Some c.
Proof. unfold persisted_cache, _save_cache. by rewrite lookup_insert_eq. Qed.

Lemma files_of_save disk path c :
  files_of (_save_cache disk path c) path = files_of disk path.
Proof. unfold files_of at 1, _save_cache. by rewrite lookup_insert_eq. Qed.

Lemma lstrip_all_space s :
  Forall (fun c => is_space c = true) s -> lstrip s = [].
Proof. induction 1 as [|c s Hc _ IH]; simpl; [done|]. by rewrite Hc. Qed.

Lemma strip_all_space s :
  Forall (fun c => is_space c = true) s -> strip s = [].
Proof. intros H. unfold strip. by rewrite lstrip_all_space. Qed.

Section EngineFacts.
Variable lower : str -> str.
Variable Vec : Type.
Variable encode : list str -> option (list Vec).
Variable external_search : str -> Z -> option str.
Variable cosine_search : str -> list (Doc * Vec) -> Z -> option str.

Lemma index_pdfs_total_docs (w : World Vec) dir :
  total_docs (LAST_INDEX_STATS w) = len (INDEX w) ->
  total_docs (LAST_INDEX_STATS (snd (index_pdfs encode w dir)))
  = len (INDEX (snd (index_pdfs encode w dir))).
Proof.
  intros H. unfold index_pdfs.
  destruct (pdfplumber (cfg w)); simpl; [|done].
  destruct (is_nil _); simpl; done.
Qed.

Lemma search_pdfs_world (w : World Vec) query top_k :
  let w' := snd (fst (search_pdfs lower encode external_search
                                  cosine_search w query top_k)) in
  w' = w \/ w' = snd (index_pdfs encode w default_dir).
Proof.
  unfold search_pdfs.
  destruct (is_nil query || is_nil (strip query)); [by left|].
  destruct (top_k <=? 0); [by left|].
  destruct (LTA_USE_EMBEDDINGS (cfg w) && EMB_ENGINE_AVAILABLE (cfg w));
    [destruct (truthy (external_search query top_k)); [by left|]|];
    (destruct (USE_EMB (cfg w) && EMB_AVAILABLE (cfg w));
     [destruct (truthy (_emb_search cosine_search w query top_k));
      [by left|]|]);
    destruct (INDEX_LOADED w); simpl; auto.
Qed.

Lemma reachable_total_docs w :
  reachable lower encode external_search cosine_search w ->
  total_docs (LAST_INDEX_STATS w) = len (INDEX w).
Proof.
  induction 1 as [c disk|w disk _ IH|w dir _ IH|w _ IH|w query top_k _ IH].
  - done.
  - done.
  - by apply index_pdfs_total_docs.
  - done.
  - destruct (search_pdfs_world w query top_k) as [->| ->]; [done|].
    by apply index_pdfs_total_docs.
Qed.

(** C9. After an ingestion pass from any state the engine can be in, reading
    the diagnostics returns the stats of the last pass, whose page count is
    the number of page records in the index, and leaves the world as it
    is. *)
Theorem diagnostics_after_ingestion w dir :
  reachable lower encode external_search cosine_search w ->
  let w1 := snd (index_pdfs encode w dir) in
  let '(stats, w2) := get_index_diagnostics w1 in
  stats = LAST_INDEX_STATS w1
  /\ total_docs stats = len (INDEX w1)
  /\ w2 = w1.
Proof.
  intros Hw. simpl. split; [done|]. split; [|done].
  apply reachable_total_docs. by constructor.
Qed.

(** C8. Without [pdfplumber], [index_pdfs] returns [False] and leaves the
    index, the loaded flag, the embedding index, the diagnostics and every
    persisted cache file as they were. *)
Theorem ingest_without_pdf_capability (w : World Vec) dir :
  pdfplumber (cfg w) = false ->
  exists w',
    index_pdfs encode w dir = (false, w')
    /\ INDEX w' = INDEX w
    /\ INDEX_LOADED w' = INDEX_LOADED w
    /\ EMB_INDEX w' = EMB_INDEX w
    /\ fst (get_index_diagnostics w') = fst (get_index_diagnostics w)
    /\ forall path, persisted_cache (fs w') path = persisted_cache (fs w) path.
Proof.
  intros H. unfold index_pdfs. rewrite H. simpl. eexists.
  split; [done|]. simpl. repeat (split; [done|]).
  intros path. apply persisted_cache_ensure_dir.
Qed.

(** C6. With [pdfplumber] available, ingesting a directory with no PDF file
    returns [True], empties the index and the embedding index, writes a
    cache with an empty file mapping, and reports zero processed and reused
    files, zero pages, and as many deleted files as the loaded cache had
    entries. *)
Theorem ingest_empty_directory (w : World Vec) dir :
  pdfplumber (cfg w) = true ->
  files_of (fs w) dir = [] ->
  exists w',
    index_pdfs encode w dir = (true, w')
    /\ INDEX w' = []
    /\ EMB_INDEX w' = []
    /\ persisted_cache (fs w') dir = Some ∅
    /\ deleted_files (LAST_INDEX_STATS w')
       = Z.of_nat (size (cached_files_of (fs w) dir))
    /\ processed_files (LAST_INDEX_STATS w') = 0
    /\ reused_files (LAST_INDEX_STATS w') = 0
    /\ total_docs (LAST_INDEX_STATS w') = 0.
Proof.
  intros Hp Hf. unfold index_pdfs.
  rewrite Hp, files_of_ensure_dir, Hf, cached_files_of_ensure_dir. simpl.
  eexists. split; [done|]. simpl. repeat (split; [done|]).
  split; [apply persisted_cache_save|done].
Qed.
End EngineFacts.

(** ** Absent results *)

Lemma lexical_results_zero lower index tokens top_k :
  (forall d, d ∈ index -> page_score lower tokens d = 0) ->
  lexical_results lower index tokens top_k = None.
Proof.
  intros Hz. unfold lexical_results.
  destruct (is_nil index); [done|]. destruct (is_nil tokens); [done|].
  cbv zeta. destruct (scored_of lower tokens index) as [|r l] eqn:E; [done|].
  assert (Hr : r ∈ scored_of lower tokens index) by (rewrite E; left).
  apply list_elem_of_omap in Hr as (d & Hd & Hs).
  apply score_doc_Some in Hs as (_ & Hpos & _). rewrite (Hz d Hd) in Hpos. lia.
Qed.

Lemma lexical_results_nonempty lower index tokens top_k results :
  0 < top_k ->
  lexical_results lower index tokens top_k = Some results -> results <> [].
Proof.
  intros Hk. unfold lexical_results.
  destruct (is_nil index); [done|]. destruct (is_nil tokens); [done|].
  cbv zeta. destruct (scored_of lower tokens index) as [|r l] eqn:E; [done|].
  pose proof (sort_desc_perm s_score (r :: l)) as Hp.
  destruct (sort_desc s_score (r :: l)) as [|x xs];
    [by apply Permutation_nil_cons in Hp|].
  destruct (Z.to_nat top_k) eqn:En; [lia|].
  simpl. by intros [= <-].
Qed.

Section SearchFacts.
Variable lower : str -> str.
Variable Vec : Type.
Variable encode : list str -> option (list Vec).
Variable external_search : str -> Z -> option str.
Variable cosine_search : str -> list (Doc * Vec) -> Z -> option str.

Abbreviation search := (search_pdfs lower encode external_search cosine_search).

(** C7. A query that is empty or all whitespace, and any query with
    [top_k <= 0], returns [None] with no tier entered and the world
    untouched. When the search reaches the lexical tier (no embedding tier
    having answered) and no page of the index has a positive score, it
    returns [None]; an answer of that tier always renders at least one
    result. *)
Theorem search_absent_results (w : World Vec) query top_k :
  (Forall (fun c => is_space c = true) query \/ top_k <= 0 ->
   search w query top_k = (None, w, []))
  /\ forall res w' tiers,
       search w query top_k = (res, w', tiers) ->
       LexicalTier ∈ tiers ->
       let tokens := _tokenize_query lower (strip query) in
       ((forall d, d ∈ INDEX w' -> page_score lower tokens d = 0) ->
        res = None)
       /\ forall s, res = Some s ->
            exists results,
              results <> []
              /\ lexical_results lower (INDEX w') tokens top_k = Some results
              /\ s = render results.
Proof.
  split.
  - intros [Hq|Hk]; unfold search_pdfs.
    + rewrite (strip_all_space _ Hq). simpl. by rewrite orb_true_r.
    + destruct (is_nil query || is_nil (strip query)); [done|].
      by destruct (Z.leb_spec top_k 0); [|lia].
  - intros res w' tiers. unfold search_pdfs.
    destruct (is_nil query || is_nil (strip query));
      [by intros [= <- <- <-] ?%elem_of_nil|].
    destruct (Z.leb_spec top_k 0) as [|Hk];
      [by intros [= <- <- <-] ?%elem_of_nil|].
    assert (Hlex : forall (w3 : World Vec) t,
              (render <$> lexical_results lower (INDEX w3)
                 (_tokenize_query lower (strip query)) top_k, w3, t)
              = (res, w', tiers) ->
              let tokens := _tokenize_query lower (strip query) in
              ((forall d, d ∈ INDEX w' -> page_score lower tokens d = 0) ->
               res = None)
              /\ forall s, res = Some s ->
                   exists results,
                     results <> []
                     /\ lexical_results lower (INDEX w') tokens top_k
                        = Some results
                     /\ s = render results).
    { intros w3 t [= <- <- <-] tokens. fold tokens. split.
      - intros Hz. by rewrite lexical_results_zero.
      - intros s Hs.
        destruct (lexical_results lower (INDEX w3) tokens top_k)
          as [results|] eqn:El; [|done].
        injection Hs as <-. exists results. split; [|done].
        by eapply lexical_results_nonempty. }
    destruct (LTA_USE_EMBEDDINGS (cfg w) && EMB_ENGINE_AVAILABLE (cfg w));
      [destruct (truthy (external_search query top_k))|];
      try (by intros [= <- <- <-] ?%list_elem_of_singleton);
      (destruct (USE_EMB (cfg w) && EMB_AVAILABLE (cfg w));
       [destruct (truthy (_emb_search cosine_search w query top_k))|]);
      try (intros [= <- <- <-] Hin; simpl in Hin;
           repeat (apply elem_of_cons in Hin as [?|Hin]; [done|]);
           by apply elem_of_nil in Hin);
      destruct (INDEX_LOADED w); intros Heq _; by eapply Hlex.
Qed.
End SearchFacts.

(** ** The loop over the files *)

Section LoopFacts.
Variable cached : gmap str CacheEntry.

Lemma index_file_kept st f e ds :
  kept cached f = Some (e, ds) ->
  docs (index_file cached st f) = docs st ++ ds
  /\ new_cache (index_file cached st f) = <[f_abs f := e]> (new_cache st).
Proof.
  unfold kept, index_file. destruct (f_hash f) as [h|]; [|done].
  destruct (reusable cached f) as [[e' ds']|].
  - by intros [= -> ->].
  - destruct (extract_file f) as [fd [|]]; [|done]. by intros [= <- <-].
Qed.

Lemma index_file_cache_other st f k :
  k <> f_abs f ->
  new_cache (index_file cached st f) !! k = new_cache st !! k.
Proof.
  intros Hk. unfold index_file. destruct (f_hash f) as [h|]; [|done].
  destruct (reusable cached f) as [[e' ds']|]; simpl.
  - by rewrite lookup_insert_ne.
  - destruct (extract_file f) as [fd [|]]; simpl; [|done].
    by rewrite lookup_insert_ne.
Qed.

Lemma index_files_cache_other files st k :
  k ∉ f_abs <$> files ->
  new_cache (index_files_from cached st files) !! k = new_cache st !! k.
Proof.
  unfold index_files_from. revert st.
  induction files as [|f l IH]; intros st Hk; [done|].
  rewrite fmap_cons, not_elem_of_cons in Hk. destruct Hk as [Hk1 Hk2].
  simpl. rewrite IH by done. by apply index_file_cache_other.
Qed.


Lemma index_file_same_but_processed k st st' f :
  same_but_processed k st st' ->
  same_but_processed k (index_file cached st f) (index_file cached st' f).
Proof.
  intros (Hc & Hr & Hp). unfold same_but_processed, index_file.
  destruct (f_hash f) as [h|]; simpl; [|split; [done|split; [done|lia]]].
  destruct (reusable cached f) as [[e ds]|]; simpl.
  - rewrite Hc, Hr, Hp. done.
  - destruct (extract_file f) as [fd ok]; simpl.
    rewrite Hc, Hr. split; [done|]. split; [done|lia].
Qed.

Lemma index_files_same_but_processed k files st st' :
  same_but_processed k st st' ->
  same_but_processed k (index_files_from cached st files)
                       (index_files_from cached st' files).
Proof.
  unfold index_files_from. revert st st'.
  induction files as [|f l IH]; intros st st' H; [done|].
  simpl. apply IH. by apply index_file_same_but_processed.
Qed.

Lemma index_file_raises st f :
  extraction_raises cached f = true ->
  same_but_processed 1 st (index_file cached st f).
Proof.
  unfold extraction_raises, same_but_processed, index_file.
  destruct (f_hash f) as [h|]; [|done].
  destruct (reusable cached f) as [[e ds]|]; [done|].
  destruct (extract_file f) as [fd [|]]; simpl; done.
Qed.

Lemma index_files_skip_raising before f after :
  extraction_raises cached f = true ->
  same_but_processed 1 (index_files cached (before ++ after))
                       (index_files cached (before ++ f :: after)).
Proof.
  intros Hf. unfold index_files, index_files_from.
  rewrite !fold_left_app. simpl.
  apply (index_files_same_but_processed 1 after).
  by apply index_file_raises.
Qed.
End LoopFacts.

Section Reingest.
Variable cached : gmap str CacheEntry.

Lemma kept_reusable_later (c2 : gmap str CacheEntry) f e ds :
  kept cached f = Some (e, ds) ->
  c2 !! f_abs f = Some e ->
  reusable c2 f = Some (e, ds) /\ is_Some (f_hash f).
Proof.
  unfold kept. destruct (f_hash f) as [h|] eqn:Eh; [|done].
  intros Hk Hc. split; [|eauto]. revert Hk.
  unfold reusable at 2. rewrite Eh, Hc.
  unfold reusable. rewrite Eh.
  destruct (cached !! f_abs f) as [e0|].
  - destruct (ce_hash e0) as [h0|] eqn:E1, (ce_docs e0) as [d0|] eqn:E2;
      try destruct (decide (h0 = h)) as [->|];
      try (intros [= <- <-]; rewrite ?E1, ?E2; simpl;
           by rewrite ?decide_True by done);
      destruct (extract_file f) as [fd [|]]; try done;
      intros [= <- <-]; simpl; by rewrite decide_True by done.
  - destruct (extract_file f) as [fd [|]]; [|done].
    intros [= <- <-]. simpl. by rewrite decide_True by done.
Qed.


Lemma first_pass files st :
  Forall (fun f => skipped cached f = false) files ->
  NoDup (f_abs <$> files) ->
  let r := index_files_from cached st files in
  docs r = docs st ++ concat (kept_docs cached <$> files)
  /\ forall f, f ∈ files ->
       exists e ds, kept cached f = Some (e, ds)
                    /\ new_cache r !! f_abs f = Some e.
Proof.
  unfold index_files_from. revert st.
  induction files as [|f l IH]; intros st Hk Hnd; simpl.
  - split; [by rewrite app_nil_r|]. by intros f ?%elem_of_nil.
  - apply Forall_cons in Hk as [Hf Hk]. rewrite fmap_cons in Hnd.
    apply NoDup_cons in Hnd as [Hnot Hnd].
    unfold skipped in Hf. destruct (kept cached f) as [[e ds]|] eqn:E; [|done].
    destruct (index_file_kept cached st f e ds E) as [Hd Hc].
    destruct (IH (index_file cached st f) Hk Hnd) as [IHd IHc].
    split.
    + rewrite IHd, Hd. unfold kept_docs at 2. rewrite E.
      by rewrite <- app_assoc.
    + intros g [->|Hg]%elem_of_cons; [|by apply IHc].
      exists e, ds. split; [done|].
      pose proof (index_files_cache_other cached l
                    (index_file cached st f) (f_abs f) Hnot) as Ho.
      unfold index_files_from in Ho. rewrite Ho, Hc.
      by rewrite lookup_insert_eq.
Qed.

Lemma second_pass (c2 : gmap str CacheEntry) files st :
  (forall f, f ∈ files ->
     exists e ds, kept cached f = Some (e, ds) /\ c2 !! f_abs f = Some e) ->
  let r := index_files_from c2 st files in
  docs r = docs st ++ concat (kept_docs cached <$> files)
  /\ processed r = processed st
  /\ reused r = reused st + len files.
Proof.
  unfold index_files_from, len. revert st.
  induction files as [|f l IH]; intros st Hall; simpl.
  - split; [by rewrite app_nil_r|lia].
  - destruct (Hall f) as (e & ds & Hk & Hc); [left|].
    destruct (kept_reusable_later c2 f e ds Hk Hc) as [Hr [h Hh]].
    destruct (IH (index_file c2 st f)) as (IHd & IHp & IHr).
    { intros g Hg. apply Hall. by right. }
    rewrite IHd, IHp, IHr. unfold index_file. rewrite Hh, Hr. simpl.
    unfold kept_docs at 2. rewrite Hk. rewrite <- app_assoc.
    split; [done|]. split; [done|]. lia.
Qed.
End Reingest.

(** ** Ingestion passes *)

Lemma cached_files_of_save disk path c :
  cached_files_of (_save_cache disk path c) path = c.
Proof. unfold cached_files_of. by rewrite persisted_cache_save. Qed.

Lemma is_nil_false {A} (l : list A) : l <> [] -> is_nil l = false.
Proof. by destruct l. Qed.

Section PassFacts.
Variable Vec : Type.
Variable encode : list str -> option (list Vec).

Lemma index_pdfs_pass (w : World Vec) dir :
  pdfplumber (cfg w) = true ->
  files_of (fs w) dir <> [] ->
  let st := index_files (cached_files_of (fs w) dir) (files_of (fs w) dir) in
  let w' := snd (index_pdfs encode w dir) in
  fst (index_pdfs encode w dir) = true
  /\ cfg w' = cfg w
  /\ fs w' = _save_cache (_ensure_dir (fs w) dir) dir (new_cache st)
  /\ INDEX w' = docs st
  /\ LAST_INDEX_STATS w'
     = mkStats (processed st) (reused st)
         (Z.max 0 (Z.of_nat (size (cached_files_of (fs w) dir))
                   - Z.of_nat (size (new_cache st))))
         (len (docs st)).
Proof.
  intros Hp Hf. unfold index_pdfs.
  rewrite Hp, files_of_ensure_dir, cached_files_of_ensure_dir.
  rewrite (is_nil_false _ Hf). simpl. done.
Qed.

Lemma index_pdfs_empty (w : World Vec) dir :
  pdfplumber (cfg w) = true ->
  files_of (fs w) dir = [] ->
  index_pdfs encode w dir
  = (true, mkWorld (cfg w) (_save_cache (_ensure_dir (fs w) dir) dir ∅)
                   [] true []
                   (mkStats 0 0
                      (Z.of_nat (size (cached_files_of (fs w) dir))) 0)).
Proof.
  intros Hp Hf. unfold index_pdfs.
  by rewrite Hp, files_of_ensure_dir, Hf, cached_files_of_ensure_dir.
Qed.

Lemma index_pdfs_disk (w : World Vec) dir :
  pdfplumber (cfg w) = true ->
  let w' := snd (index_pdfs encode w dir) in
  cfg w' = cfg w /\ files_of (fs w') dir = files_of (fs w) dir.
Proof.
  intros Hp. unfold index_pdfs. rewrite Hp. simpl.
  destruct (is_nil _); simpl;
    by rewrite files_of_save, files_of_ensure_dir.
Qed.


(** C5, as amended. When the first of two consecutive passes over an
    unchanged directory skipped no file (each was hashed, and taken from the
    cache or extracted without error), both passes return [True], and the
    second reports no processed file, as many reused files as the directory
    has PDF files, and the same index as the first. *)
Theorem reingest_unchanged_directory (w : World Vec) dir :
  pdfplumber (cfg w) = true ->
  NoDup (f_abs <$> files_of (fs w) dir) ->
  Forall (fun f => skipped (cached_files_of (fs w) dir) f = false)
         (files_of (fs w) dir) ->
  let w1 := snd (index_pdfs encode w dir) in
  let w2 := snd (index_pdfs encode w1 dir) in
  fst (index_pdfs encode w dir) = true
  /\ files_of (fs w1) dir = files_of (fs w) dir
  /\ fst (index_pdfs encode w1 dir) = true
  /\ processed_files (LAST_INDEX_STATS w2) = 0
  /\ reused_files (LAST_INDEX_STATS w2) = len (files_of (fs w) dir)
  /\ INDEX w2 = INDEX w1.
Proof.
  intros Hp Hnd Hk w1 w2.
  destruct (index_pdfs_disk w dir Hp) as [Hcfg Hfiles].
  fold w1 in Hcfg, Hfiles.
  assert (Hp1 : pdfplumber (cfg w1) = true) by by rewrite Hcfg.
  destruct (files_of (fs w) dir) as [|f0 l] eqn:Ef.
  - split; [by rewrite (index_pdfs_empty w dir Hp Ef)|].
    split; [done|]. subst w2.
    rewrite (index_pdfs_empty w1 dir Hp1 Hfiles). simpl.
    repeat (split; [done|]). subst w1.
    by rewrite (index_pdfs_empty w dir Hp Ef).
  - destruct (index_pdfs_pass w dir Hp) as (Hok & _ & Hfs & Hidx & _);
      [by rewrite Ef|]. fold w1 in Hfs, Hidx.
    destruct (index_pdfs_pass w1 dir Hp1) as (Hok2 & _ & _ & Hidx2 & Hst2);
      [by rewrite Hfiles|]. fold w2 in Hidx2, Hst2.
    rewrite Hfiles in Hidx2, Hst2. rewrite Ef in Hidx, Hfs.
    rewrite Hfs, cached_files_of_save in Hidx2, Hst2.
    set (cached := cached_files_of (fs w) dir) in *.
    destruct (first_pass cached (f0 :: l) (mkLoop [] ∅ 0 0) Hk Hnd)
      as [Hd1 Hc1].
    destruct (second_pass cached (new_cache (index_files cached (f0 :: l)))
                (f0 :: l) (mkLoop [] ∅ 0 0) Hc1) as (Hd2 & Hp2 & Hr2).
    split; [done|]. split; [done|]. split; [done|].
    rewrite Hst2, Hidx2, Hidx. simpl processed_files. simpl reused_files.
    unfold index_files, index_files_from in *.
    rewrite Hp2, Hr2, Hd2, Hd1. simpl. done.
Qed.
End PassFacts.

(** * The properties on the sample corpus *)


Lemma lexical_snippet_window_witness :
  exists d, d ∈ sample_index
    /\ s_file sample_hit = file d /\ s_page sample_hit = page d.
Proof.
  destruct (lexical_snippet_window ascii_lower sample_index sample_tokens 3
              sample_results sample_hit) as (d & Hd & Hf & Hp & _).
  - vm_compute. reflexivity.
  - apply (list_elem_of_lookup_2 _ 0%nat). reflexivity.
  - exists d. exact (conj Hd (conj Hf Hp)).
Defined.

(** C2, as stated, fails on [padded_doc] and the query [a]: the reported
    window is [0-300], but the token [a] does not occur at offset 0 of the
    page text (it first occurs at 300; the match at 0 is on the lowercased
    text, where the [A] of the page reads [a]), and the snippet shown is not
    the normalized slice [text[0:300]]: its trailing blanks are stripped. *)
Lemma snippet_window_counterexample :
  let tokens := _tokenize_query ascii_lower (strip (lit "a")) in
  exists r,
    lexical_results ascii_lower [padded_doc] tokens 3 = Some [r]
    /\ tokens = [lit "a"]
    /\ s_start r = 0 /\ s_end r = 300
    /\ ~ occurs_at (lit "a") (text padded_doc) 0
    /\ occurs_at (lit "a") (text padded_doc) 300
    /\ strip (s_snippet r)
       <> replace_newlines (slice (text padded_doc) (s_start r) (s_end r)).
Proof.
  eexists. split; [vm_compute; reflexivity|].
  split; [reflexivity|]. split; [reflexivity|]. split; [reflexivity|].
  split; [|split].
  - intros [_ H]. vm_compute in H. discriminate.
  - split; [lia|]. vm_compute. reflexivity.
  - vm_compute. discriminate.
Qed.

Lemma positive_score_has_position_witness :
  0 <= first_pos_of sample_tokens
         (ascii_lower (lit "BNS 318 replaces the offence of cheating.")).
Proof.
  refine (proj1 (proj2 (positive_score_has_position ascii_lower sample_tokens
            (mkDoc (lit "bns.pdf") 1
                   (lit "BNS 318 replaces the offence of cheating.")) _))).
  vm_compute. reflexivity.
Defined.

Lemma diagnostics_after_ingestion_witness :
  total_docs (fst (get_index_diagnostics indexed_world))
  = len (INDEX indexed_world).
Proof.
  exact (proj1 (proj2 (diagnostics_after_ingestion ascii_lower unit
           no_vectors no_external no_cosine sample_world law_dir
           (reach_initial ascii_lower unit no_vectors no_external no_cosine
              sample_config _)))).
Defined.

Lemma ingest_without_pdf_capability_witness :
  exists w',
    index_pdfs no_vectors world_without_pdfplumber law_dir = (false, w')
    /\ INDEX w' = INDEX world_without_pdfplumber
    /\ persisted_cache (fs w') law_dir = Some cache_before_rename.
Proof.
  destruct (ingest_without_pdf_capability unit no_vectors
              world_without_pdfplumber law_dir)
    as (w' & H1 & H2 & _ & _ & _ & H3).
  - reflexivity.
  - exists w'. split; [exact H1|]. split; [exact H2|].
    rewrite H3. vm_compute. reflexivity.
Defined.

Lemma ingest_empty_directory_witness :
  exists w',
    index_pdfs no_vectors world_emptied law_dir = (true, w')
    /\ INDEX w' = []
    /\ persisted_cache (fs w') law_dir = Some ∅
    /\ deleted_files (LAST_INDEX_STATS w') = 2.
Proof.
  destruct (ingest_empty_directory unit no_vectors world_emptied law_dir)
    as (w' & H1 & H2 & _ & H3 & H4 & _).
  - reflexivity.
  - vm_compute. reflexivity.
  - exists w'. split; [exact H1|]. split; [exact H2|]. split; [exact H3|].
    rewrite H4. vm_compute. reflexivity.
Defined.

Lemma search_absent_results_witness :
  search_pdfs ascii_lower no_vectors no_external no_cosine indexed_world
              (lit "  ") 3 = (None, indexed_world, [])
  /\ search_pdfs ascii_lower no_vectors no_external no_cosine indexed_world
                 (lit "cheating") 0 = (None, indexed_world, [])
  /\ fst (fst (search_pdfs ascii_lower no_vectors no_external no_cosine
                           indexed_world (lit "murder") 3)) = None.
Proof.
  split; [|split].
  - apply (search_absent_results ascii_lower unit no_vectors no_external
             no_cosine indexed_world (lit "  ") 3).
    left. repeat constructor.
  - apply (search_absent_results ascii_lower unit no_vectors no_external
             no_cosine indexed_world (lit "cheating") 0).
    right. lia.
  - destruct (search_pdfs ascii_lower no_vectors no_external no_cosine
                indexed_world (lit "murder") 3) as [[res w'] tiers] eqn:E.
    simpl.
    refine (proj1 (proj2 (search_absent_results ascii_lower unit no_vectors
              no_external no_cosine indexed_world (lit "murder") 3)
              res w' tiers E _) _).
    + vm_compute in E. injection E as _ _ <-. left.
    + vm_compute in E. injection E as _ <- _. intros d Hd.
      repeat (apply elem_of_cons in Hd as [->|Hd]; [vm_compute; reflexivity|]).
      by apply elem_of_nil in Hd.
Defined.



(** C4 on a renamed file: the cache has one entry whose path is no longer
    in the directory, and the pass reports no deleted file, with one
    processed file for the new name. *)
Theorem renamed_file_reports_no_deletion :
  let w' := snd (index_pdfs no_vectors world_after_rename law_dir) in
  stale_entries (cached_files_of (fs world_after_rename) law_dir)
                (files_of (fs world_after_rename) law_dir) = 1%nat
  /\ fst (index_pdfs no_vectors world_after_rename law_dir) = true
  /\ deleted_files (LAST_INDEX_STATS w') = 0
  /\ processed_files (LAST_INDEX_STATS w') = 1
  /\ reused_files (LAST_INDEX_STATS w') = 0.
Proof. vm_compute. repeat split; reflexivity. Qed.

Lemma reingest_unchanged_directory_witness :
  let w1 := snd (index_pdfs no_vectors sample_world law_dir) in
  let w2 := snd (index_pdfs no_vectors w1 law_dir) in
  processed_files (LAST_INDEX_STATS w2) = 0
  /\ reused_files (LAST_INDEX_STATS w2)
     = len (files_of (fs sample_world) law_dir)
  /\ INDEX w2 = INDEX w1.
Proof.
  destruct (reingest_unchanged_directory unit no_vectors sample_world law_dir)
    as (_ & _ & _ & H1 & H2 & H3).
  - reflexivity.
  - apply (bool_decide_unpack _). vm_compute. exact I.
  - apply (bool_decide_unpack _). vm_compute. exact I.
  - exact (conj H1 (conj H2 H3)).
Defined.

(** C5, as stated, fails on a directory whose only file is encrypted: both
    passes return [True] over the same file, and the second pass again
    reports it as processed, and none as reused. *)
Lemma reingest_with_locked_file :
  let w1 := snd (index_pdfs no_vectors world_only_locked law_dir) in
  let w2 := snd (index_pdfs no_vectors w1 law_dir) in
  fst (index_pdfs no_vectors world_only_locked law_dir) = true
  /\ files_of (fs w1) law_dir = files_of (fs world_only_locked) law_dir
  /\ files_of (fs w1) law_dir = [locked_pdf]
  /\ fst (index_pdfs no_vectors w1 law_dir) = true
  /\ processed_files (LAST_INDEX_STATS w2) = 1
  /\ reused_files (LAST_INDEX_STATS w2) = 0.
Proof. vm_compute. repeat split; reflexivity. Qed.

(** * Further properties of the engine *)

(** ** Tokens *)

Lemma findall_alnum_runs s : forall pre cur,
  Forall (fun c => is_alnum c = true) cur ->
  Forall (fun t => t <> [] /\ Forall (fun c => is_alnum c = true) t
                   /\ exists a b, pre ++ cur ++ s = a ++ t ++ b)
         (findall_alnum s cur).
Proof.
  induction s as [|c s IH]; intros pre cur Hcur; simpl.
  - destruct cur as [|c0 cur]; simpl; [constructor|].
    constructor; [|constructor]. split; [done|]. split; [done|].
    exists pre, []. done.
  - destruct (is_alnum c) eqn:Ec.
    + specialize (IH pre (cur ++ [c])).
      rewrite <- (app_assoc cur [c] s) in IH. apply IH.
      apply Forall_app. split; [done|]. by constructor.
    + destruct cur as [|c0 cur]; simpl.
      * specialize (IH (pre ++ [c]) []). simpl in IH.
        rewrite <- app_assoc in IH. apply IH. constructor.
      * constructor.
        -- split; [done|]. split; [done|]. exists pre, (c :: s). done.
        -- specialize (IH (pre ++ c0 :: cur ++ [c]) []). simpl in IH.
           rewrite <- app_assoc in IH. simpl in IH.
           rewrite <- app_assoc in IH. apply IH. constructor.
Qed.

Lemma starts_with_app sub post : starts_with sub (sub ++ post) = true.
Proof.
  induction sub as [|c sub IH]; simpl; [by destruct post|].
  by rewrite N.eqb_refl.
Qed.

Lemma occurs_at_split sub s a b :
  s = a ++ sub ++ b -> occurs_at sub s (len a).
Proof.
  intros ->. unfold occurs_at, len. split; [lia|].
  rewrite Nat2Z.id, drop_app_length. apply starts_with_app.
Qed.

Lemma occurs_contains sub s i : occurs_at sub s i -> contains s sub.
Proof.
  intros Ho. unfold contains.
  destruct (Z.le_gt_cases 0 (find s sub)) as [|Hlt]; [done|].
  by destruct (find_none s sub i).
Qed.

Section Tokens.
Variable lower : str -> str.

(** X1. The filter [if t] of [_tokenize_query] removes nothing: the tokens are
    the alphanumeric runs of the lowercased query. Each token is non-empty,
    made of ASCII letters and digits only, and a substring of the lowercased
    query. *)
Theorem tokenize_query_tokens (query : str) :
  _tokenize_query lower query = findall_alnum (lower query) []
  /\ Forall (fun t => t <> []
                      /\ Forall (fun c => is_alnum c = true) t
                      /\ contains (lower query) t)
            (_tokenize_query lower query).
Proof.
  pose proof (findall_alnum_runs (lower query) [] [] (Forall_nil_2 _)) as H.
  simpl in H.
  assert (Hid : _tokenize_query lower query = findall_alnum (lower query) []).
  { unfold _tokenize_query. apply forallb_filter_id. apply forallb_forall.
    intros t Ht. apply list_elem_of_In in Ht.
    rewrite Forall_forall in H. destruct (H t Ht) as [Hne _]. by destruct t. }
  split; [done|]. rewrite Hid. eapply Forall_impl; [exact H|].
  intros t (Hne & Hal & a & b & Heq). split; [done|]. split; [done|].
  eapply occurs_contains, occurs_at_split, Heq.
Qed.
End Tokens.

(** ** Queries *)

Lemma score_of_perm tokens tokens' txt :
  tokens ≡ₚ tokens' -> score_of tokens txt = score_of tokens' txt.
Proof.
  unfold score_of. induction 1 as [|t l l' _ IH|t t' l|l l' l'' _ IH1 _ IH2];
    simpl; lia.
Qed.

Lemma first_pos_of_unique tokens txt p :
  (p = -1 /\ forall t, t ∈ tokens -> find txt t < 0)
  \/ (0 <= p /\ (exists t, t ∈ tokens /\ find txt t = p)
      /\ forall t, t ∈ tokens -> 0 <= find txt t -> p <= find txt t) ->
  first_pos_of tokens txt = p.
Proof.
  intros Hp.
  destruct (first_pos_of_cases tokens txt)
    as [[Hq Hno]|(Hq & (t & Ht & Hf) & Hmin)];
    destruct Hp as [[-> Hno']|(Hp & (t' & Ht' & Hf') & Hmin')].
  - done.
  - specialize (Hno t' Ht'). lia.
  - specialize (Hno' t Ht). lia.
  - specialize (Hmin t' Ht'). specialize (Hmin' t Ht). lia.
Qed.

Lemma first_pos_of_perm tokens tokens' txt :
  tokens ≡ₚ tokens' -> first_pos_of tokens txt = first_pos_of tokens' txt.
Proof.
  intros Hperm. symmetry. apply first_pos_of_unique.
  destruct (first_pos_of_cases tokens txt)
    as [[Hq Hno]|(Hq & (t & Ht & Hf) & Hmin)]; [left|right].
  - split; [done|]. intros t Ht. apply Hno. by rewrite Hperm.
  - split; [done|]. split.
    + exists t. split; [by rewrite <- Hperm|done].
    + intros t' Ht'. apply Hmin. by rewrite Hperm.
Qed.

Lemma find_absent_count txt t : find txt t < 0 -> count txt t = 0.
Proof.
  intros Hf. pose proof (count_nonneg txt t).
  destruct (Z.le_gt_cases (count txt t) 0) as [|Hpos]; [lia|].
  apply count_pos_find in Hpos. lia.
Qed.

Section Queries.
Variable lower : str -> str.

Lemma score_doc_ext tokens tokens' d :
  score_of tokens (lower (text d)) = score_of tokens' (lower (text d)) ->
  first_pos_of tokens (lower (text d)) = first_pos_of tokens' (lower (text d)) ->
  score_doc lower tokens d = score_doc lower tokens' d.
Proof. intros Hs Hp. unfold score_doc. by rewrite Hs, Hp. Qed.

Lemma scored_of_ext tokens tokens' index :
  (forall d, d ∈ index -> score_doc lower tokens d = score_doc lower tokens' d) ->
  scored_of lower tokens index = scored_of lower tokens' index.
Proof.
  unfold scored_of. induction index as [|d ds IH]; intros H; [done|].
  csimpl. rewrite (H d) by left. rewrite IH; [done|].
  intros d' Hd'. apply H. by right.
Qed.

Lemma scored_of_no_tokens index : scored_of lower [] index = [].
Proof. unfold scored_of. by induction index as [|d ds IH]. Qed.

Lemma lexical_results_scored index tokens top_k :
  lexical_results lower index tokens top_k
  = if is_nil (scored_of lower tokens index) then None
    else Some (take (Z.to_nat top_k)
                 (sort_desc s_score (scored_of lower tokens index))).
Proof.
  unfold lexical_results. destruct index as [|d ds]; [done|].
  destruct tokens as [|t ts]; [|done].
  by rewrite scored_of_no_tokens.
Qed.

(** X2. The lexical tier does not depend on the order of the query words: two
    token lists that are permutations of each other give the same results,
    scores, windows and order included. *)
Theorem query_word_order_is_irrelevant index tokens tokens' top_k :
  tokens ≡ₚ tokens' ->
  lexical_results lower index tokens top_k
  = lexical_results lower index tokens' top_k.
Proof.
  intros Hperm. rewrite !lexical_results_scored.
  rewrite (scored_of_ext tokens tokens'); [done|].
  intros d _. apply score_doc_ext.
  - by apply score_of_perm.
  - by apply first_pos_of_perm.
Qed.

(** X3. A query word that occurs in no indexed page (lowercased) changes
    nothing: the results with it are the results without it. *)
Theorem absent_word_changes_nothing index tokens t top_k :
  (forall d, d ∈ index -> ~ contains (lower (text d)) t) ->
  lexical_results lower index (t :: tokens) top_k
  = lexical_results lower index tokens top_k.
Proof.
  intros Habs. rewrite !lexical_results_scored.
  rewrite (scored_of_ext (t :: tokens) tokens); [done|].
  intros d Hd. specialize (Habs d Hd). unfold contains in Habs.
  apply score_doc_ext.
  - unfold score_of. simpl. rewrite find_absent_count; lia.
  - unfold first_pos_of. simpl.
    destruct (Z.leb_spec 0 (find (lower (text d)) t)); [lia|done].
Qed.

Lemma length_scored_of tokens index :
  length (scored_of lower tokens index)
  = length (positive_pages lower tokens index).
Proof.
  unfold scored_of, positive_pages, page_score.
  induction index as [|d ds IH]; [done|]. csimpl.
  unfold score_doc at 1.
  destruct (0 <? score_of tokens (lower (text d))); csimpl; [|done].
  destruct (0 <=? first_pos_of tokens (lower (text d))); csimpl;
    by rewrite IH.
Qed.

(** X4. The lexical tier returns [min(top_k, number of pages with a positive
    score)] results, and the results for [top_k] are the first [top_k] of the
    results for any larger [top_k']: a larger [top_k] only appends. *)
Theorem larger_top_k_extends_results index tokens top_k top_k' results :
  0 < top_k <= top_k' ->
  lexical_results lower index tokens top_k = Some results ->
  length results
  = Nat.min (Z.to_nat top_k) (length (positive_pages lower tokens index))
  /\ exists results',
       lexical_results lower index tokens top_k' = Some results'
       /\ results = take (Z.to_nat top_k) results'.
Proof.
  intros Hk. rewrite !lexical_results_scored.
  destruct (is_nil (scored_of lower tokens index)); [done|].
  intros [= <-]. split.
  - rewrite length_take, <- length_scored_of.
    by rewrite (Permutation_length (sort_desc_perm _ _)).
  - eexists. split; [done|]. rewrite take_take. f_equal. lia.
Qed.
End Queries.

(** ** Windows and answers *)

Lemma length_replace_newlines s : length (replace_newlines s) = length s.
Proof. unfold replace_newlines. apply length_map. Qed.

Lemma len_slice {A} (s : list A) a b :
  0 <= a -> 0 <= b <= len s -> len (slice s a b) = Z.max 0 (b - a).
Proof.
  unfold len, slice. intros Ha Hb. rewrite length_take, length_drop. lia.
Qed.

Lemma occurs_at_lt t s i : t <> [] -> occurs_at t s i -> i < len s.
Proof.
  intros Ht [Hi Ho]. unfold len.
  destruct (Z.lt_ge_cases i (Z.of_nat (length s))) as [|Hge]; [done|].
  rewrite drop_ge in Ho by lia. destruct t; [done|discriminate].
Qed.

Section Windows.
Variable lower : str -> str.

(** X5. The reported window of a scored page lies within the page text: [0 <=
    start], [0 <= end <= len(text)], [end <= start + 300], and the snippet has
    [max(0, end - start)] characters, at most 300. *)
Theorem window_within_text tokens d r :
  score_doc lower tokens d = Some r ->
  0 <= s_start r
  /\ 0 <= s_end r <= len (text d)
  /\ s_end r <= s_start r + 300
  /\ len (s_snippet r) = Z.max 0 (s_end r - s_start r)
  /\ len (s_snippet r) <= 300.
Proof.
  intros Hs. destruct (score_doc_fields lower tokens d r Hs) as (Hsn & Hf & Hn).
  assert (Hlen : 0 <= len (text d)) by (unfold len; lia).
  assert (Hb : 0 <= s_start r /\ 0 <= s_end r <= len (text d)
               /\ s_end r <= s_start r + 300).
  { destruct (Z.le_gt_cases 0 (first_pos_of tokens (lower (text d))))
      as [Hge|Hlt].
    - destruct (Hf Hge) as [H1 H2]. lia.
    - destruct (Hn Hlt) as [H1 H2]. lia. }
  destruct Hb as (H1 & H2 & H3). repeat (split; [lia|]).
  assert (Hl : len (s_snippet r) = Z.max 0 (s_end r - s_start r)).
  { rewrite Hsn. unfold len. rewrite length_replace_newlines.
    by apply len_slice. }
  split; [done|]. lia.
Qed.

(** X6. When lowercasing keeps the length of the page text and no token is
    empty, the window of a scored page is not empty: [start < end], the
    snippet has a character, and a query word occurs in the lowercased text at
    [start] and ends within the page text. *)
Theorem window_is_nonempty tokens d r :
  length (lower (text d)) = length (text d) ->
  Forall (fun t => t <> []) tokens ->
  score_doc lower tokens d = Some r ->
  s_start r < s_end r
  /\ s_snippet r <> []
  /\ exists t, t ∈ tokens
       /\ occurs_at t (lower (text d)) (s_start r)
       /\ s_start r + len t <= len (text d).
Proof.
  intros Hlen Hne Hs.
  destruct (score_doc_Some lower tokens d r Hs) as (_ & Hpos & _).
  destruct (score_doc_fields lower tokens d r Hs) as (Hsn & Hf & _).
  destruct (score_of_pos _ _ Hpos) as (t0 & Ht0 & Hc).
  pose proof (count_pos_find _ _ Hc) as Hfind.
  assert (Hfp : 0 <= first_pos_of tokens (lower (text d))).
  { destruct (first_pos_of_cases tokens (lower (text d)))
      as [[_ Hno]|(? & _)]; [|done]. specialize (Hno t0 Ht0). lia. }
  destruct (Hf Hfp) as [Hst Hen].
  destruct (first_pos_of_earliest tokens _ Hfp) as [(t & Ht & Ho) _].
  rewrite <- Hst in Ho.
  rewrite Forall_forall in Hne. specialize (Hne t Ht).
  pose proof (occurs_at_lt _ _ _ Hne Ho) as Hlt.
  assert (Hll : len (lower (text d)) = len (text d)) by (unfold len; lia).
  assert (Hfit : s_start r + len t <= len (text d)).
  { destruct Ho as [Hi Ho]. rewrite <- Hll. unfold len.
    assert (Hd : (length t <= length (drop (Z.to_nat (s_start r))
                                          (lower (text d))))%nat).
    { clear -Ho. revert Ho.
      generalize (drop (Z.to_nat (s_start r)) (lower (text d))).
      induction t as [|c t IH]; intros [|c' l]; simpl; try done; [lia|].
      intros [_ H]%andb_prop. specialize (IH _ H). lia. }
    rewrite length_drop in Hd.
    assert (0 < length t)%nat by (destruct t; [done|simpl; lia]). lia. }
  assert (Hse : s_start r < s_end r) by (destruct Ho; lia).
  split; [done|]. split.
  - intros Hnil.
    assert (Hl : len (s_snippet r) = Z.max 0 (s_end r - s_start r)).
    { rewrite Hsn. unfold len. rewrite length_replace_newlines.
      apply len_slice; [destruct Ho; lia|]. unfold len in *. lia. }
    rewrite Hnil in Hl. unfold len in Hl. simpl in Hl. lia.
  - exists t. done.
Qed.
End Windows.

Lemma join_cons_prefix sep x l : exists tail, join sep (x :: l) = x ++ tail.
Proof.
  destruct l as [|y l]; simpl.
  - exists []. by rewrite app_nil_r.
  - by eexists.
Qed.

Lemma render_nonempty r rs :
  exists tail,
    render (r :: rs)
    = answer_header ++ [10%N; 10%N] ++ lit "> - **Source:** " ++ s_file r
        ++ lit " | **Page:** " ++ str_of_int (s_page r) ++ lit " | "
        ++ lit "**Offsets:**" ++ lit " " ++ str_of_int (s_start r) ++ lit "-"
        ++ str_of_int (s_end r) ++ [10%N] ++ lit ">   > _"
        ++ strip (s_snippet r) ++ lit "_" ++ [10%N] ++ tail.
Proof.
  unfold render. simpl List.map.
  destruct (join_cons_prefix [10%N] (render_line r) (List.map render_line rs))
    as [tail Ht].
  exists tail.
  change (join [10%N] ((lit "> **Answer (grounded snippets):**" ++ [10%N])
                         :: render_line r :: List.map render_line rs))
    with ((answer_header ++ [10%N]) ++ [10%N]
            ++ join [10%N] (render_line r :: List.map render_line rs)).
  rewrite Ht. unfold render_line.
  change (lit " | **Offsets:** ")
    with (lit " | " ++ lit "**Offsets:**" ++ lit " ").
  rewrite <- !app_assoc. done.
Qed.

(** ** The paths through [search_pdfs] *)

Lemma strip_nil_inv s : (is_nil s || is_nil (strip s)) = is_nil (strip s).
Proof. by destruct s. Qed.

Section SearchCases.
Variable lower : str -> str.
Variable Vec : Type.
Variable encode : list str -> option (list Vec).
Variable external_search : str -> Z -> option str.
Variable cosine_search : str -> list (Doc * Vec) -> Z -> option str.

Abbreviation search := (search_pdfs lower encode external_search cosine_search).

Lemma truthy_Some r s : truthy r = Some s -> r = Some s /\ s <> [].
Proof. destruct r as [[|c r]|]; simpl; [done| |done]. by intros [= <-]. Qed.

Lemma search_pdfs_cases (w : World Vec) query top_k :
  (search w query top_k = (None, w, [])
   /\ (strip query = [] \/ top_k <= 0))
  \/ (exists s t,
        search w query top_k = (Some s, w, t)
        /\ s <> [] /\ (LexicalTier ∉ t) /\ (ImplicitIngest ∉ t)
        /\ (((LTA_USE_EMBEDDINGS (cfg w) && EMB_ENGINE_AVAILABLE (cfg w)) = true
             /\ external_search query top_k = Some s)
            \/ ((USE_EMB (cfg w) && EMB_AVAILABLE (cfg w)) = true
                /\ _emb_search cosine_search w query top_k = Some s)))
  \/ (exists t w',
        0 < top_k /\ strip query <> []
        /\ search w query top_k
           = (render <$> lexical_results lower (INDEX w')
                           (_tokenize_query lower (strip query)) top_k,
              w', t ++ [LexicalTier])
        /\ (LexicalTier ∉ t)
        /\ ((INDEX_LOADED w = true /\ w' = w /\ (ImplicitIngest ∉ t))
            \/ (INDEX_LOADED w = false
                /\ w' = snd (index_pdfs encode w default_dir)
                /\ ImplicitIngest ∈ t))).
Proof.
  unfold search_pdfs. rewrite strip_nil_inv.
  destruct (strip query) as [|c0 q0] eqn:Eq; [left; split; [done|by left]|].
  simpl is_nil. cbv iota.
  destruct (Z.leb_spec top_k 0) as [Hk|Hk]; [left; split; [done|by right]|].
  assert (Hnot : forall (a b : Tier) l, a <> b -> a ∉ l -> a ∉ b :: l).
  { intros a b l Hab Hl [->|H]%elem_of_cons; done. }
  destruct (LTA_USE_EMBEDDINGS (cfg w) && EMB_ENGINE_AVAILABLE (cfg w)) eqn:E1;
    [destruct (truthy (external_search query top_k)) as [s1|] eqn:T1|].
  - right; left. apply truthy_Some in T1 as [T1 Hs]. exists s1, [ExternalTier].
    repeat split; try done; try (apply Hnot; [done|apply not_elem_of_nil]).
    by left.
  - destruct (USE_EMB (cfg w) && EMB_AVAILABLE (cfg w)) eqn:E2;
      [destruct (truthy (_emb_search cosine_search w query top_k))
         as [s2|] eqn:T2|].
    + right; left. apply truthy_Some in T2 as [T2 Hs].
      exists s2, [ExternalTier; InternalTier].
      repeat split; try done;
        try (do 2 (apply Hnot; [done|]); apply not_elem_of_nil).
      by right.
    + right; right. destruct (INDEX_LOADED w) eqn:El.
      * exists [ExternalTier; InternalTier], w.
        repeat split; try done;
          try (do 2 (apply Hnot; [done|]); apply not_elem_of_nil).
        left. repeat split; try done.
        do 2 (apply Hnot; [done|]); apply not_elem_of_nil.
      * exists [ExternalTier; InternalTier; ImplicitIngest], (snd (index_pdfs encode w default_dir)).
        repeat split; try done;
          try (do 3 (apply Hnot; [done|]); apply not_elem_of_nil).
        right. repeat split; try done. do 2 right. left.
    + right; right. destruct (INDEX_LOADED w) eqn:El.
      * exists [ExternalTier], w.
        repeat split; try done;
          try (apply Hnot; [done|]; apply not_elem_of_nil).
        left. repeat split; try done.
        apply Hnot; [done|]; apply not_elem_of_nil.
      * exists [ExternalTier; ImplicitIngest], (snd (index_pdfs encode w default_dir)).
        repeat split; try done;
          try (do 2 (apply Hnot; [done|]); apply not_elem_of_nil).
        right. repeat split; try done. right. left.
  - destruct (USE_EMB (cfg w) && EMB_AVAILABLE (cfg w)) eqn:E2;
      [destruct (truthy (_emb_search cosine_search w query top_k))
         as [s2|] eqn:T2|].
    + right; left. apply truthy_Some in T2 as [T2 Hs].
      exists s2, [InternalTier].
      repeat split; try done;
        try (apply Hnot; [done|]; apply not_elem_of_nil).
      by right.
    + right; right. destruct (INDEX_LOADED w) eqn:El.
      * exists [InternalTier], w.
        repeat split; try done;
          try (apply Hnot; [done|]; apply not_elem_of_nil).
        left. repeat split; try done.
        apply Hnot; [done|]; apply not_elem_of_nil.
      * exists [InternalTier; ImplicitIngest], (snd (index_pdfs encode w default_dir)).
        repeat split; try done;
          try (do 2 (apply Hnot; [done|]); apply not_elem_of_nil).
        right. repeat split; try done. right. left.
    + right; right. destruct (INDEX_LOADED w) eqn:El.
      * exists [], w.
        repeat split; try done; try apply not_elem_of_nil.
        left. repeat split; try done. apply not_elem_of_nil.
      * exists [ImplicitIngest], (snd (index_pdfs encode w default_dir)).
        repeat split; try done;
          try (apply Hnot; [done|]; apply not_elem_of_nil).
        right. repeat split; try done. left.
Qed.
End SearchCases.

(** ** Searching *)

Section SearchProps.
Variable lower : str -> str.
Variable Vec : Type.
Variable encode : list str -> option (list Vec).
Variable external_search : str -> Z -> option str.
Variable cosine_search : str -> list (Doc * Vec) -> Z -> option str.

Abbreviation search := (search_pdfs lower encode external_search cosine_search).

Lemma index_pdfs_cfg (w : World Vec) dir :
  cfg (snd (index_pdfs encode w dir)) = cfg w.
Proof.
  unfold index_pdfs. destruct (pdfplumber (cfg w)); simpl; [|done].
  by destruct (is_nil _).
Qed.

Lemma index_pdfs_loaded (w : World Vec) dir :
  pdfplumber (cfg w) = true ->
  INDEX_LOADED (snd (index_pdfs encode w dir)) = true.
Proof.
  intros Hp. unfold index_pdfs. rewrite Hp. simpl. by destruct (is_nil _).
Qed.

Lemma index_pdfs_unavailable (w : World Vec) dir :
  pdfplumber (cfg w) = false ->
  let w' := snd (index_pdfs encode w dir) in
  fst (index_pdfs encode w dir) = false
  /\ INDEX w' = INDEX w /\ EMB_INDEX w' = EMB_INDEX w
  /\ INDEX_LOADED w' = INDEX_LOADED w
  /\ LAST_INDEX_STATS w' = LAST_INDEX_STATS w.
Proof. intros Hp. unfold index_pdfs. by rewrite Hp. Qed.

Lemma emb_search_empty (w : World Vec) query top_k :
  EMB_INDEX w = [] -> _emb_search cosine_search w query top_k = None.
Proof. intros H. unfold _emb_search. by rewrite H. Qed.

Lemma lexical_results_no_pages tokens top_k :
  lexical_results lower [] tokens top_k = None.
Proof. done. Qed.

(** X7. An answer of the lexical tier starts with the header [> **Answer
    (grounded snippets):**] and contains [**Offsets:**], the marker
    [tests/test_rag_offsets.py] looks for. *)
Theorem lexical_answer_format (w : World Vec) query top_k s w' tiers :
  search w query top_k = (Some s, w', tiers) ->
  LexicalTier ∈ tiers ->
  starts_with answer_header s = true
  /\ contains s (lit "**Offsets:**").
Proof.
  intros Hs Hin.
  destruct (search_pdfs_cases lower Vec encode external_search cosine_search
              w query top_k)
    as [[Heq _]|[(s' & t & Heq & _ & Hnl & _)|(t & w2 & Hk & _ & Heq & _)]].
  - rewrite Heq in Hs. done.
  - rewrite Heq in Hs. injection Hs as _ _ <-. done.
  - rewrite Heq in Hs. injection Hs as Hr _ _.
    destruct (lexical_results lower (INDEX w2) _ top_k) as [results|] eqn:El;
      [|done]. injection Hr as <-.
    pose proof (lexical_results_nonempty _ _ _ _ _ Hk El) as Hne.
    destruct results as [|r rs]; [done|].
    destruct (render_nonempty r rs) as [tail Hrender]. split.
    + rewrite Hrender. apply starts_with_app.
    + eapply occurs_contains, (occurs_at_split _ _
        (answer_header ++ [10%N; 10%N] ++ lit "> - **Source:** " ++ s_file r
           ++ lit " | **Page:** " ++ str_of_int (s_page r) ++ lit " | ")).
      rewrite Hrender. rewrite <- !app_assoc. done.
Qed.

Lemma search_loaded (w : World Vec) query top_k :
  INDEX_LOADED w = true ->
  snd (fst (search w query top_k)) = w
  /\ (ImplicitIngest ∉ snd (search w query top_k)).
Proof.
  intros Hl.
  destruct (search_pdfs_cases lower Vec encode external_search cosine_search
              w query top_k)
    as [[Heq _]|[(s' & t & Heq & _ & _ & Hni & _)
                |(t & w2 & _ & _ & Heq & Hnl & Hw)]]; rewrite Heq; simpl.
  - split; [done|apply not_elem_of_nil].
  - done.
  - destruct Hw as [(_ & -> & Hni)|(Hl' & _)]; [|congruence].
    split; [done|]. rewrite elem_of_app, list_elem_of_singleton.
    by intros [?|?].
Qed.

(** X8. [search_pdfs] changes the globals and the disk only through the
    implicit ingestion: with the index loaded it changes nothing and does not
    ingest; whenever it does not ingest it changes nothing; and when it
    ingests, the index was not loaded and the state after the call is that of
    [index_pdfs()] on the default directory. *)
Theorem search_changes_world_only_by_implicit_ingestion (w : World Vec)
    query top_k :
  let '(res, w', tiers) := search w query top_k in
  (INDEX_LOADED w = true -> w' = w /\ (ImplicitIngest ∉ tiers))
  /\ (ImplicitIngest ∉ tiers -> w' = w)
  /\ (ImplicitIngest ∈ tiers ->
      INDEX_LOADED w = false /\ w' = snd (index_pdfs encode w default_dir)).
Proof.
  pose proof (search_loaded w query top_k) as Hload.
  destruct (search_pdfs_cases lower Vec encode external_search cosine_search
              w query top_k)
    as [[Heq _]|[(s' & t & Heq & _ & _ & Hni & _)
                |(t & w2 & _ & _ & Heq & Hnl & Hw)]]; rewrite Heq in *;
    simpl in Hload.
  - split; [done|]. split; [done|]. by intros ?%elem_of_nil.
  - split; [done|]. split; done.
  - split; [done|].
    assert (Hiff : ImplicitIngest ∈ t ++ [LexicalTier] <-> ImplicitIngest ∈ t).
    { rewrite elem_of_app, list_elem_of_singleton.
      split; [by intros [?|?]|by left]. }
    rewrite Hiff.
    destruct Hw as [(Hl & -> & Hni)|(Hl & -> & Hi)]; split; done.
Qed.

(** X9. With pdfplumber available, a search that ingested implicitly marks the
    index as loaded: the next search, whatever its query, does not ingest
    again and leaves the state as it is. *)
Theorem implicit_ingestion_happens_once (w : World Vec) query top_k
    query' top_k' :
  pdfplumber (cfg w) = true ->
  let '(_, w', tiers) := search w query top_k in
  ImplicitIngest ∈ tiers ->
  let '(_, w'', tiers') := search w' query' top_k' in
  (ImplicitIngest ∉ tiers') /\ w'' = w'.
Proof.
  intros Hp.
  destruct (search_pdfs_cases lower Vec encode external_search cosine_search
              w query top_k)
    as [[Heq _]|[(s' & t & Heq & _ & _ & Hni & _)
                |(t & w2 & _ & _ & Heq & Hnl & Hw)]]; rewrite Heq.
  - by intros ?%elem_of_nil.
  - done.
  - rewrite elem_of_app, list_elem_of_singleton.
    intros [Hin|?]; [|done].
    destruct Hw as [(_ & _ & Hni)|(_ & -> & _)]; [done|].
    pose proof (search_loaded (snd (index_pdfs encode w default_dir))
                  query' top_k' (index_pdfs_loaded w default_dir Hp)) as Hl.
    destruct (search _ query' top_k') as [[res' w''] tiers']. simpl in Hl.
    by destruct Hl.
Qed.

Lemma search_nothing_indexed (w : World Vec) query top_k :
  (LTA_USE_EMBEDDINGS (cfg w) && EMB_ENGINE_AVAILABLE (cfg w)) = false ->
  EMB_INDEX w = [] ->
  INDEX w = [] ->
  INDEX_LOADED w = true \/ pdfplumber (cfg w) = false ->
  fst (fst (search w query top_k)) = None.
Proof.
  intros Hext Hemb Hidx Hl.
  destruct (search_pdfs_cases lower Vec encode external_search cosine_search
              w query top_k)
    as [[Heq _]|[(s' & t & Heq & _ & _ & _ & [[He _]|[_ He]])
                |(t & w2 & _ & _ & Heq & Hnl & Hw)]]; rewrite Heq; simpl.
  - done.
  - congruence.
  - by rewrite emb_search_empty in He.
  - assert (INDEX w2 = []) as ->; [|done].
    destruct Hw as [(_ & -> & _)|(Hnl' & -> & _)]; [done|].
    destruct Hl as [Hl|Hp]; [congruence|].
    destruct (index_pdfs_unavailable w default_dir Hp) as (_ & -> & _). done.
Qed.

Lemma reachable_cfg_no_pdfplumber (w : World Vec) :
  reachable lower encode external_search cosine_search w ->
  pdfplumber (cfg w) = false ->
  INDEX w = [] /\ EMB_INDEX w = [] /\ LAST_INDEX_STATS w = empty_stats.
Proof.
  induction 1 as [c disk|w disk _ IH|w dir _ IH|w _ IH|w query top_k _ IH];
    simpl; intros Hp.
  - done.
  - by apply IH.
  - rewrite index_pdfs_cfg in Hp.
    destruct (index_pdfs_unavailable w dir Hp) as (_ & -> & -> & _ & ->).
    by apply IH.
  - done.
  - pose proof (search_pdfs_world lower Vec encode external_search
                  cosine_search w query top_k) as Hw. simpl in Hw.
    destruct Hw as [Hw|Hw]; rewrite Hw in *; [by apply IH|].
    rewrite index_pdfs_cfg in Hp.
    destruct (index_pdfs_unavailable w default_dir Hp)
      as (_ & -> & -> & _ & ->).
    by apply IH.
Qed.

(** X10. Without pdfplumber, in every state the engine can reach the page
    index and the embedding index are empty and the diagnostics are all zero;
    [index_pdfs] returns [False] for every directory; and unless the external
    embeddings engine is in use, every search returns [None]. *)
Theorem without_pdfplumber_nothing_is_ever_indexed (w : World Vec) :
  reachable lower encode external_search cosine_search w ->
  pdfplumber (cfg w) = false ->
  INDEX w = [] /\ EMB_INDEX w = [] /\ LAST_INDEX_STATS w = empty_stats
  /\ (forall dir, fst (index_pdfs encode w dir) = false)
  /\ ((LTA_USE_EMBEDDINGS (cfg w) && EMB_ENGINE_AVAILABLE (cfg w)) = false ->
      forall query top_k, fst (fst (search w query top_k)) = None).
Proof.
  intros Hr Hp.
  destruct (reachable_cfg_no_pdfplumber w Hr Hp) as (Hi & He & Hs).
  repeat (split; [done|]). split.
  - intros dir. by destruct (index_pdfs_unavailable w dir Hp).
  - intros Hext query top_k. apply search_nothing_indexed; auto.
Qed.

(** X11. After [clear_index], and unless the external embeddings engine is in
    use, every search returns [None] without ingesting: [clear_index] marks
    the empty index as loaded. The disk is untouched and the diagnostics read
    all zero. *)
Theorem search_after_clear_index (w : World Vec) query top_k :
  (LTA_USE_EMBEDDINGS (cfg w) && EMB_ENGINE_AVAILABLE (cfg w)) = false ->
  let '(res, w', tiers) := search (clear_index w) query top_k in
  res = None /\ w' = clear_index w /\ (ImplicitIngest ∉ tiers)
  /\ fs w' = fs w
  /\ fst (get_index_diagnostics w') = empty_stats.
Proof.
  intros Hext.
  pose proof (search_nothing_indexed (clear_index w) query top_k Hext
                eq_refl eq_refl (or_introl eq_refl)) as Hnone.
  pose proof (search_loaded (clear_index w) query top_k eq_refl) as [Hw Hni].
  destruct (search (clear_index w) query top_k) as [[res w'] tiers].
  simpl in *. subst. done.
Qed.

(** X12. After ingesting a directory without PDF files, and unless the
    external embeddings engine is in use, every search returns [None], does
    not ingest the default directory, and changes nothing. *)
Theorem search_after_empty_directory (w : World Vec) dir query top_k :
  pdfplumber (cfg w) = true ->
  files_of (fs w) dir = [] ->
  (LTA_USE_EMBEDDINGS (cfg w) && EMB_ENGINE_AVAILABLE (cfg w)) = false ->
  let w1 := snd (index_pdfs encode w dir) in
  let '(res, w', tiers) := search w1 query top_k in
  res = None /\ w' = w1 /\ (ImplicitIngest ∉ tiers).
Proof.
  intros Hp Hf Hext w1.
  assert (Hw1 : INDEX w1 = [] /\ EMB_INDEX w1 = [] /\ INDEX_LOADED w1 = true
                /\ cfg w1 = cfg w).
  { subst w1. by rewrite (index_pdfs_empty Vec encode w dir Hp Hf). }
  destruct Hw1 as (Hi & He & Hl & Hc).
  assert (Hext1 : (LTA_USE_EMBEDDINGS (cfg w1)
                   && EMB_ENGINE_AVAILABLE (cfg w1)) = false)
    by by rewrite Hc.
  pose proof (search_nothing_indexed w1 query top_k Hext1 He Hi
                (or_introl Hl)) as Hnone.
  pose proof (search_loaded w1 query top_k Hl) as [Hw Hni].
  destruct (search w1 query top_k) as [[res w'] tiers].
  simpl in *. subst. done.
Qed.
End SearchProps.

(** ** When the lexical tier answers *)

Lemma count_from_occurs sub s i :
  sub <> [] -> starts_with sub (drop i s) = true -> 0 < count_from sub s 0.
Proof.
  intros Hne. revert i. induction s as [|c s IH]; intros i Ho.
  - rewrite drop_nil in Ho. by destruct sub.
  - simpl. destruct (starts_with sub (c :: s)) eqn:E.
    + pose proof (count_from_nonneg sub s (length sub - 1)). lia.
    + destruct i as [|i]; [simpl in Ho; congruence|]. by apply (IH i).
Qed.

Lemma contains_count_pos s sub : contains s sub -> 0 < count s sub.
Proof.
  unfold contains, count. intros Hf.
  destruct sub as [|c sub]; [unfold len; simpl; lia|]. simpl is_nil. cbv iota.
  destruct (find_occurs s (c :: sub) Hf) as [[_ Ho] _].
  by eapply count_from_occurs.
Qed.

Lemma score_of_ge_count tokens txt t :
  t ∈ tokens -> count txt t <= score_of tokens txt.
Proof.
  unfold score_of. induction tokens as [|t0 ts IH]; [by intros ?%elem_of_nil|].
  simpl. pose proof (count_nonneg txt t0).
  pose proof (score_of_nonneg ts txt) as Hn. unfold score_of in Hn.
  intros [->|Hin]%elem_of_cons; [lia|]. specialize (IH Hin). lia.
Qed.

Section Answers.
Variable lower : str -> str.
Variable Vec : Type.
Variable encode : list str -> option (list Vec).
Variable external_search : str -> Z -> option str.
Variable cosine_search : str -> list (Doc * Vec) -> Z -> option str.

Abbreviation search := (search_pdfs lower encode external_search cosine_search).

Lemma lexical_results_is_Some index tokens top_k :
  is_Some (lexical_results lower index tokens top_k)
  <-> exists d t, d ∈ index /\ t ∈ tokens /\ contains (lower (text d)) t.
Proof.
  rewrite lexical_results_scored. split.
  - destruct (scored_of lower tokens index) as [|r rs] eqn:E;
      [by intros [? ?]|]. intros _.
    assert (Hr : r ∈ scored_of lower tokens index) by (rewrite E; left).
    apply list_elem_of_omap in Hr as (d & Hd & Hs).
    apply score_doc_Some in Hs as (_ & Hpos & _).
    apply score_of_pos in Hpos as (t & Ht & Hc).
    exists d, t. split; [done|]. split; [done|]. by apply count_pos_find.
  - intros (d & t & Hd & Ht & Hc).
    apply contains_count_pos in Hc.
    pose proof (score_of_ge_count tokens (lower (text d)) t Ht) as Hge.
    destruct (score_doc_is_Some lower tokens d) as [r Hr];
      [unfold page_score; lia|].
    assert (Hin : r ∈ scored_of lower tokens index).
    { apply list_elem_of_omap. eauto. }
    destruct (scored_of lower tokens index); [by apply elem_of_nil in Hin|].
    simpl. eauto.
Qed.

(** X13. When a search reaches the lexical tier, it returns an answer exactly
    when some token of the stripped query occurs in the lowercased text of
    some indexed page. *)
Theorem lexical_tier_answers_iff_a_word_occurs (w : World Vec) query top_k
    res w' tiers :
  search w query top_k = (res, w', tiers) ->
  LexicalTier ∈ tiers ->
  is_Some res
  <-> exists d t,
        d ∈ INDEX w' /\ t ∈ _tokenize_query lower (strip query)
        /\ contains (lower (text d)) t.
Proof.
  intros Hs Hin.
  destruct (search_pdfs_cases lower Vec encode external_search cosine_search
              w query top_k)
    as [[Heq _]|[(s' & t & Heq & _ & Hnl & _)|(t & w2 & Hk & _ & Heq & _)]];
    rewrite Heq in Hs.
  - injection Hs as _ _ <-. by apply elem_of_nil in Hin.
  - injection Hs as _ _ <-. done.
  - injection Hs as <- <- _. rewrite <- lexical_results_is_Some.
    by rewrite fmap_is_Some.
Qed.
End Answers.

(** ** The order of the tiers *)

Ltac not_entered H :=
  simpl in H;
  repeat (apply elem_of_cons in H as [H|H]; [discriminate H|]);
  by apply elem_of_nil in H.

Section Tiers.
Variable lower : str -> str.
Variable Vec : Type.
Variable encode : list str -> option (list Vec).
Variable external_search : str -> Z -> option str.
Variable cosine_search : str -> list (Doc * Vec) -> Z -> option str.
Abbreviation search := (search_pdfs lower encode external_search cosine_search).

Lemma tiers_in_order (a b c : bool) :
  ((if a then [ExternalTier] else [])
     ++ (if b then [InternalTier] else [])
     ++ (if c then [ImplicitIngest] else []) ++ [LexicalTier])
  `sublist_of` [ExternalTier; InternalTier; ImplicitIngest; LexicalTier].
Proof.
  destruct a, b, c; simpl;
    eauto 10 using sublist_nil, sublist_skip, sublist_cons.
Qed.

(** X14. The tiers are entered in the order external, internal, implicit
    ingestion, lexical, each at most once. The external tier is entered only
    with [LTA_USE_EMBEDDINGS] set and the external engine available, the
    internal one only with [_USE_EMB] and [_EMB_AVAILABLE]. A non-empty answer
    of the external engine is returned as it is, with no other tier entered. A
    search that enters a tier but not the lexical one changes nothing and
    returns the non-empty answer of the last tier entered, which for the
    internal tier requires a non-empty embedding index. *)
Theorem vector_tiers_preempt_the_lexical_tier (w : World Vec) query top_k
    res w' tiers :
  search w query top_k = (res, w', tiers) ->
  tiers `sublist_of` [ExternalTier; InternalTier; ImplicitIngest; LexicalTier]
  /\ (ExternalTier ∈ tiers ->
      (LTA_USE_EMBEDDINGS (cfg w) && EMB_ENGINE_AVAILABLE (cfg w)) = true)
  /\ (InternalTier ∈ tiers ->
      (USE_EMB (cfg w) && EMB_AVAILABLE (cfg w)) = true)
  /\ (forall s, ExternalTier ∈ tiers ->
        external_search query top_k = Some s -> s <> [] ->
        res = Some s /\ w' = w /\ tiers = [ExternalTier])
  /\ (tiers <> [] -> LexicalTier ∉ tiers ->
      w' = w
      /\ exists s, res = Some s /\ s <> []
           /\ ((last tiers = Some ExternalTier
                /\ external_search query top_k = Some s)
               \/ (last tiers = Some InternalTier
                   /\ EMB_INDEX w <> []
                   /\ cosine_search query (EMB_INDEX w) top_k = Some s))).
Proof.
  unfold search_pdfs.
  destruct (is_nil query || is_nil (strip query)).
  { intros [= <- <- <-]. split; [apply sublist_nil_l|].
    split; [by intros ?%elem_of_nil|]. split; [by intros ?%elem_of_nil|].
    split; [by intros s ?%elem_of_nil|]. by intros H. }
  destruct (top_k <=? 0).
  { intros [= <- <- <-]. split; [apply sublist_nil_l|].
    split; [by intros ?%elem_of_nil|]. split; [by intros ?%elem_of_nil|].
    split; [by intros s ?%elem_of_nil|]. by intros H. }
  assert (Hno : truthy (external_search query top_k) = None ->
                forall s, external_search query top_k = Some s -> s = []).
  { intros Ht s Hs. rewrite Hs in Ht. simpl in Ht.
    destruct s; [done|discriminate]. }
  destruct (LTA_USE_EMBEDDINGS (cfg w) && EMB_ENGINE_AVAILABLE (cfg w)) eqn:Hx;
    [destruct (truthy (external_search query top_k)) as [s|] eqn:Ht|];
    [apply truthy_Some in Ht as [Ht Hs]; intros [= <- <- <-]
    |specialize (Hno eq_refl)|clear Hno].
  - split; [eauto 10 using sublist_nil, sublist_skip, sublist_cons|].
    split; [done|]. split.
    { intros H. not_entered H. }
    split; [intros s' _ Hs' _; by simplify_eq|].
    intros _ _. split; [done|]. exists s. split; [done|]. split; [done|].
    by left.
  - destruct (USE_EMB (cfg w) && EMB_AVAILABLE (cfg w)) eqn:Hi;
      [destruct (truthy (_emb_search cosine_search w query top_k))
         as [s|] eqn:Hc|].
    + apply truthy_Some in Hc as [Hc Hs]. unfold _emb_search in Hc.
      destruct (is_nil (EMB_INDEX w) || negb (EMB_AVAILABLE (cfg w)))
        eqn:Hg; [done|].
      apply orb_false_iff in Hg as [Hg _].
      intros [= <- <- <-].
      split; [simpl; eauto 10 using sublist_nil, sublist_skip, sublist_cons|].
      split; [done|]. split; [done|].
      split; [intros s' _ Hs' Hne; by apply Hno in Hs'|].
      intros _ _. split; [done|]. exists s. split; [done|]. split; [done|].
      right. split; [done|]. split; [|done]. by destruct (EMB_INDEX w).
    + destruct (INDEX_LOADED w); intros [= <- <- <-].
      * split; [apply (tiers_in_order true true false)|].
        split; [done|]. split; [done|].
        split; [intros s' _ Hs' Hne; by apply Hno in Hs'|].
        intros _ H. exfalso. apply H. simpl.
        do 2 apply list_elem_of_further. apply list_elem_of_here.
      * split; [apply (tiers_in_order true true true)|].
        split; [done|]. split; [done|].
        split; [intros s' _ Hs' Hne; by apply Hno in Hs'|].
        intros _ H. exfalso. apply H. simpl.
        do 3 apply list_elem_of_further. apply list_elem_of_here.
    + destruct (INDEX_LOADED w); intros [= <- <- <-].
      * split; [apply (tiers_in_order true false false)|].
        split; [done|].
        split; [intros H; not_entered H|].
        split; [intros s' _ Hs' Hne; by apply Hno in Hs'|].
        intros _ H. exfalso. apply H. simpl.
        do 1 apply list_elem_of_further. apply list_elem_of_here.
      * split; [apply (tiers_in_order true false true)|].
        split; [done|].
        split; [intros H; not_entered H|].
        split; [intros s' _ Hs' Hne; by apply Hno in Hs'|].
        intros _ H. exfalso. apply H. simpl.
        do 2 apply list_elem_of_further. apply list_elem_of_here.
  - destruct (USE_EMB (cfg w) && EMB_AVAILABLE (cfg w)) eqn:Hi;
      [destruct (truthy (_emb_search cosine_search w query top_k))
         as [s|] eqn:Hc|].
    + apply truthy_Some in Hc as [Hc Hs]. unfold _emb_search in Hc.
      destruct (is_nil (EMB_INDEX w) || negb (EMB_AVAILABLE (cfg w)))
        eqn:Hg; [done|].
      apply orb_false_iff in Hg as [Hg _].
      intros [= <- <- <-].
      split; [simpl; eauto 10 using sublist_nil, sublist_skip, sublist_cons|].
      split.
      { intros H. not_entered H. }
      split; [done|].
      split.
      { intros s' H. not_entered H. }
      intros _ _. split; [done|]. exists s. split; [done|]. split; [done|].
      right. split; [done|]. split; [|done]. by destruct (EMB_INDEX w).
    + destruct (INDEX_LOADED w); intros [= <- <- <-].
      * split; [apply (tiers_in_order false true false)|].
        split.
        { intros H. not_entered H. }
        split; [done|].
        split.
        { intros s' H. not_entered H. }
        intros _ H. exfalso. apply H. simpl.
        do 1 apply list_elem_of_further. apply list_elem_of_here.
      * split; [apply (tiers_in_order false true true)|].
        split.
        { intros H. not_entered H. }
        split; [done|].
        split.
        { intros s' H. not_entered H. }
        intros _ H. exfalso. apply H. simpl.
        do 2 apply list_elem_of_further. apply list_elem_of_here.
    + destruct (INDEX_LOADED w); intros [= <- <- <-].
      * split; [apply (tiers_in_order false false false)|].
        split.
        { intros H. not_entered H. }
        split.
        { intros H. not_entered H. }
        split.
        { intros s' H. not_entered H. }
        intros _ H. exfalso. apply H. simpl. apply list_elem_of_here.
      * split; [apply (tiers_in_order false false true)|].
        split.
        { intros H. not_entered H. }
        split.
        { intros H. not_entered H. }
        split.
        { intros s' H. not_entered H. }
        intros _ H. exfalso. apply H. simpl.
        do 1 apply list_elem_of_further. apply list_elem_of_here.
Qed.
End Tiers.

(** ** Trimming and extraction *)

Lemma lstrip_idemp s : lstrip (lstrip s) = lstrip s.
Proof.
  induction s as [|c s IH]; simpl; [done|].
  destruct (is_space c) eqn:E; [done|]. simpl. by rewrite E.
Qed.

Lemma lstrip_snoc s c :
  is_space c = false -> lstrip (s ++ [c]) = lstrip s ++ [c].
Proof.
  intros Hc. induction s as [|c' s IH]; simpl; [by rewrite Hc|].
  by destruct (is_space c').
Qed.

Lemma rstrip_cons c s :
  is_space c = false -> rstrip (c :: s) = c :: rstrip s.
Proof.
  intros Hc. unfold rstrip. simpl. rewrite lstrip_snoc by done.
  by rewrite rev_app_distr.
Qed.

Lemma rstrip_idemp s : rstrip (rstrip s) = rstrip s.
Proof. unfold rstrip. by rewrite rev_involutive, lstrip_idemp. Qed.

Lemma lstrip_head s :
  lstrip s = [] \/ exists c s', lstrip s = c :: s' /\ is_space c = false.
Proof.
  induction s as [|c s IH]; simpl; [by left|].
  destruct (is_space c) eqn:E; [done|]. right. eauto.
Qed.

Lemma strip_idemp s : strip (strip s) = strip s.
Proof.
  unfold strip. destruct (lstrip_head s) as [->|(c & s' & -> & Hc)]; [done|].
  rewrite rstrip_cons by done. simpl. rewrite Hc.
  rewrite <- rstrip_cons by done. apply rstrip_idemp.
Qed.

Lemma extract_pages_fresh base i ps d :
  d ∈ fst (extract_pages base i ps) ->
  file d = base /\ i <= page d < i + len ps /\ text d <> []
  /\ strip (text d) = text d.
Proof.
  revert i. induction ps as [|p ps IH]; intros i; simpl.
  - by intros ?%elem_of_nil.
  - destruct p as [t|]; [|by intros ?%elem_of_nil].
    destruct (extract_pages base (i + 1) ps) as [ds ok] eqn:E. simpl.
    specialize (IH (i + 1)). rewrite E in IH. simpl in IH.
    unfold len in *. rewrite elem_of_app. intros [Hd|Hd].
    + destruct (strip (default [] t)) as [|c s] eqn:Es; simpl in Hd;
        [by apply elem_of_nil in Hd|].
      apply list_elem_of_singleton in Hd as ->. simpl.
      split; [done|]. split; [simpl; lia|]. split; [done|].
      rewrite <- Es. apply strip_idemp.
    + destruct (IH Hd) as (H1 & H2 & H3 & H4).
      split; [done|]. split; [simpl length; lia|]. done.
Qed.

Lemma extract_file_fresh f d :
  d ∈ fst (extract_file f) -> fresh_record (f_base f) (len (f_pages f)) d.
Proof.
  unfold extract_file. destruct (f_open f); [|by intros ?%elem_of_nil].
  intros Hd. destruct (extract_pages_fresh _ _ _ _ Hd) as (H1 & H2 & H3 & H4).
  unfold fresh_record. repeat split; try done; lia.
Qed.

Section FileLoop.
Variable cached : gmap str CacheEntry.

Lemma index_file_counts st f :
  processed (index_file cached st f) + reused (index_file cached st f)
  = processed st + reused st + 1.
Proof.
  unfold index_file. destruct (f_hash f); [|simpl; lia].
  destruct (reusable cached f) as [[e ds]|]; [simpl; lia|].
  destruct (extract_file f); simpl; lia.
Qed.

Lemma index_files_counts files st :
  let r := index_files_from cached st files in
  processed r + reused r = processed st + reused st + len files.
Proof.
  unfold index_files_from, len. revert st.
  induction files as [|f l IH]; intros st; simpl; [lia|].
  rewrite IH, index_file_counts. lia.
Qed.

Lemma index_file_nonneg st f :
  0 <= processed st -> 0 <= reused st ->
  0 <= processed (index_file cached st f)
  /\ 0 <= reused (index_file cached st f).
Proof.
  intros Hp Hr. unfold index_file. destruct (f_hash f); [|simpl; lia].
  destruct (reusable cached f) as [[e ds]|]; [simpl; lia|].
  destruct (extract_file f); simpl; lia.
Qed.

Lemma index_files_nonneg files st :
  0 <= processed st -> 0 <= reused st ->
  0 <= processed (index_files_from cached st files)
  /\ 0 <= reused (index_files_from cached st files).
Proof.
  unfold index_files_from. revert st.
  induction files as [|f l IH]; intros st Hp Hr; simpl; [done|].
  destruct (index_file_nonneg st f Hp Hr). by apply IH.
Qed.

(** What one file adds to the locals of the loop. *)
Lemma index_file_adds st f :
  let one := index_file cached (mkLoop [] ∅ 0 0) f in
  docs (index_file cached st f) = docs st ++ docs one
  /\ processed (index_file cached st f) = processed st + processed one
  /\ reused (index_file cached st f) = reused st + reused one.
Proof.
  unfold index_file.
  destruct (f_hash f); [|simpl; rewrite app_nil_r; repeat split; lia].
  destruct (reusable cached f) as [[e ds]|]; [simpl; repeat split; lia|].
  destruct (extract_file f); simpl; repeat split; lia.
Qed.

Lemma index_files_adds files st :
  let r := index_files_from cached st files in
  let alone := index_files cached files in
  docs r = docs st ++ docs alone
  /\ processed r = processed st + processed alone
  /\ reused r = reused st + reused alone.
Proof.
  unfold index_files, index_files_from. revert st.
  induction files as [|f l IH]; intros st; simpl.
  - rewrite app_nil_r. repeat split; lia.
  - destruct (IH (index_file cached st f)) as (H1 & H2 & H3).
    destruct (IH (index_file cached (mkLoop [] ∅ 0 0) f)) as (H1' & H2' & H3').
    destruct (index_file_adds st f) as (Ha & Hb & Hc).
    rewrite H1, H2, H3, H1', H2', H3', Ha, Hb, Hc.
    rewrite <- app_assoc. repeat split; try done; lia.
Qed.

(** X15. The loop over the files treats each file on its own: the page records
    and the counters of a listing [files ++ files'] are those of [files]
    followed by, respectively added to, those of [files'] taken alone with the
    same cache. *)
Theorem files_are_indexed_independently files files' :
  let both := index_files cached (files ++ files') in
  let left_run := index_files cached files in
  let right_run := index_files cached files' in
  docs both = docs left_run ++ docs right_run
  /\ processed both = processed left_run + processed right_run
  /\ reused both = reused left_run + reused right_run.
Proof.
  pose proof (index_files_adds files' (index_files cached files)) as H.
  simpl in *.
  replace (index_files cached (files ++ files'))
    with (index_files_from cached (index_files cached files) files'); [done|].
  unfold index_files, index_files_from. by rewrite fold_left_app.
Qed.
End FileLoop.

(** ** The cache and the index after a pass *)

Lemma reusable_Some cached f e ds :
  reusable cached f = Some (e, ds) ->
  cached !! f_abs f = Some e /\ is_Some (f_hash f)
  /\ ce_hash e = f_hash f /\ ce_docs e = Some ds.
Proof.
  unfold reusable. destruct (f_hash f) as [h|]; [|done].
  destruct (cached !! f_abs f) as [e0|]; [|done].
  destruct (ce_hash e0) as [h0|] eqn:E1; [|done].
  destruct (ce_docs e0) as [d0|] eqn:E2; [|done].
  destruct (decide (h0 = h)) as [->|]; [|done].
  intros [= <- <-]. eauto.
Qed.

Lemma kept_entry cached f e ds :
  kept cached f = Some (e, ds) ->
  is_Some (f_hash f) /\ ce_hash e = f_hash f /\ ce_docs e = Some ds.
Proof.
  unfold kept. destruct (f_hash f) as [h|] eqn:Eh; [|done].
  destruct (reusable cached f) as [[e' ds']|] eqn:Er.
  - intros [= <- <-]. apply reusable_Some in Er as (_ & _ & H1 & H2).
    rewrite Eh in H1. eauto.
  - destruct (extract_file f) as [fd [|]]; [|done].
    intros [= <- <-]. eauto.
Qed.

Section Cache.
Variable cached : gmap str CacheEntry.

Lemma index_file_cache_self st f :
  new_cache (index_file cached st f) !! f_abs f
  = match kept cached f with
    | Some (e, _) => Some e
    | None => new_cache st !! f_abs f
    end.
Proof.
  unfold index_file, kept. destruct (f_hash f) as [h|]; [|done].
  destruct (reusable cached f) as [[e ds]|]; simpl.
  - by rewrite lookup_insert_eq.
  - destruct (extract_file f) as [fd [|]]; simpl; [|done].
    by rewrite lookup_insert_eq.
Qed.

Lemma index_files_cache_self files st f :
  NoDup (f_abs <$> files) -> f ∈ files ->
  new_cache (index_files_from cached st files) !! f_abs f
  = match kept cached f with
    | Some (e, _) => Some e
    | None => new_cache st !! f_abs f
    end.
Proof.
  revert st. induction files as [|f0 l IH]; intros st Hnd Hf.
  - by apply elem_of_nil in Hf.
  - rewrite fmap_cons in Hnd. apply NoDup_cons in Hnd as [Hnot Hnd].
    apply elem_of_cons in Hf as [->|Hf].
    + change (index_files_from cached st (f0 :: l))
        with (index_files_from cached (index_file cached st f0) l).
      rewrite index_files_cache_other by done. apply index_file_cache_self.
    + change (index_files_from cached st (f0 :: l))
        with (index_files_from cached (index_file cached st f0) l).
      rewrite (IH _ Hnd Hf). destruct (kept cached f) as [[e ds]|]; [done|].
      apply index_file_cache_other. intros Heq. apply Hnot.
      rewrite <- Heq. by apply list_elem_of_fmap_2.
Qed.

Lemma docs_provenance files st d :
  d ∈ docs (index_files_from cached st files) ->
  d ∈ docs st
  \/ exists f, f ∈ files
       /\ ((exists e ds, reusable cached f = Some (e, ds) /\ d ∈ ds)
           \/ (reusable cached f = None
               /\ fresh_record (f_base f) (len (f_pages f)) d)).
Proof.
  unfold index_files_from. revert st.
  induction files as [|f l IH]; intros st; simpl; [by left|].
  intros Hd. destruct (IH _ Hd) as [Hst|(f' & Hf' & H)].
  - unfold index_file in Hst. destruct (f_hash f) as [h|]; [|by left].
    destruct (reusable cached f) as [[e ds]|] eqn:Er; simpl in Hst.
    + apply elem_of_app in Hst as [?|Hin]; [by left|].
      right. exists f. split; [left|]. left. eauto.
    + destruct (extract_file f) as [fd ok] eqn:Ee. simpl in Hst.
      apply elem_of_app in Hst as [?|Hin]; [by left|].
      right. exists f. split; [left|]. right. split; [done|].
      apply extract_file_fresh. by rewrite Ee.
  - right. exists f'. split; [by right|done].
Qed.
End Cache.

Section Passes.
Variable Vec : Type.
Variable encode : list str -> option (list Vec).

(** X16. After a pass with pdfplumber available, every listed file is counted
    exactly once, as processed or as reused, and no counter is negative. *)
Theorem every_file_is_counted_once (w : World Vec) dir :
  pdfplumber (cfg w) = true ->
  let stats := LAST_INDEX_STATS (snd (index_pdfs encode w dir)) in
  processed_files stats + reused_files stats = len (files_of (fs w) dir)
  /\ 0 <= processed_files stats /\ 0 <= reused_files stats
  /\ 0 <= deleted_files stats.
Proof.
  intros Hp. destruct (files_of (fs w) dir) as [|f0 l] eqn:Ef.
  - rewrite (index_pdfs_empty Vec encode w dir Hp Ef). simpl.
    unfold len. simpl. lia.
  - destruct (index_pdfs_pass Vec encode w dir Hp) as (_ & _ & _ & _ & Hst);
      [by rewrite Ef|]. rewrite Hst, Ef.
    cbn [processed_files reused_files deleted_files].
    pose proof (index_files_counts (cached_files_of (fs w) dir) (f0 :: l)
                  (mkLoop [] ∅ 0 0)) as Hc.
    destruct (index_files_nonneg (cached_files_of (fs w) dir) (f0 :: l)
                (mkLoop [] ∅ 0 0)) as [Hn1 Hn2]; [done..|].
    cbv zeta in Hc. cbn [processed reused] in Hc.
    unfold index_files. lia.
Qed.

(** X17. The cache file a pass writes, for a listing without repeated paths:
    it has an entry for a listed file exactly when the file was reused or
    extracted without error, that entry holds the hash of the file and the
    page records the file contributed to the index, and there is no entry for
    any other path. *)
Theorem cache_after_pass (w : World Vec) dir :
  pdfplumber (cfg w) = true ->
  NoDup (f_abs <$> files_of (fs w) dir) ->
  let cached := cached_files_of (fs w) dir in
  exists m,
    persisted_cache (fs (snd (index_pdfs encode w dir))) dir = Some m
    /\ (forall f, f ∈ files_of (fs w) dir ->
          m !! f_abs f = fst <$> kept cached f)
    /\ (forall f e, f ∈ files_of (fs w) dir -> m !! f_abs f = Some e ->
          ce_hash e = f_hash f /\ ce_docs e = Some (kept_docs cached f))
    /\ (forall k, k ∉ f_abs <$> files_of (fs w) dir -> m !! k = None).
Proof.
  intros Hp Hnd cached.
  destruct (files_of (fs w) dir) as [|f0 l] eqn:Ef.
  - rewrite (index_pdfs_empty Vec encode w dir Hp Ef). simpl.
    exists ∅. split; [apply persisted_cache_save|].
    split; [by intros f ?%elem_of_nil|]. split; [by intros f e ?%elem_of_nil|].
    intros k _. apply lookup_empty.
  - destruct (index_pdfs_pass Vec encode w dir Hp) as (_ & _ & Hfs & _);
      [by rewrite Ef|]. rewrite Hfs, Ef. fold cached.
    exists (new_cache (index_files cached (f0 :: l))).
    split; [apply persisted_cache_save|].
    assert (Hm : forall f, f ∈ f0 :: l ->
              new_cache (index_files cached (f0 :: l)) !! f_abs f
              = fst <$> kept cached f).
    { intros f Hf. unfold index_files.
      rewrite (index_files_cache_self cached _ _ f Hnd Hf).
      by destruct (kept cached f) as [[e ds]|]. }
    split; [done|]. split.
    + intros f e Hf He. rewrite (Hm f Hf) in He. unfold kept_docs.
      destruct (kept cached f) as [[e' ds]|] eqn:Ek; [|done].
      injection He as <-. by apply kept_entry in Ek as (_ & ? & ?).
    + intros k Hk. unfold index_files.
      by rewrite index_files_cache_other.
Qed.

(** X18. Every page record of the index after a pass belongs to a listed file:
    either it is one of the docs of the cached entry of that file, whose hash
    matches, or it was extracted: it carries the base name of the file, a page
    number within the file, and a trimmed, non-empty text. *)
Theorem index_records_come_from_cache_or_extraction (w : World Vec) dir d :
  pdfplumber (cfg w) = true ->
  d ∈ INDEX (snd (index_pdfs encode w dir)) ->
  exists f, f ∈ files_of (fs w) dir
    /\ ((exists e ds,
           cached_files_of (fs w) dir !! f_abs f = Some e
           /\ ce_hash e = f_hash f /\ ce_docs e = Some ds /\ d ∈ ds)
        \/ fresh_record (f_base f) (len (f_pages f)) d).
Proof.
  intros Hp. destruct (files_of (fs w) dir) as [|f0 l] eqn:Ef.
  - rewrite (index_pdfs_empty Vec encode w dir Hp Ef). simpl.
    by intros ?%elem_of_nil.
  - destruct (index_pdfs_pass Vec encode w dir Hp) as (_ & _ & _ & Hidx & _);
      [by rewrite Ef|]. rewrite Hidx, Ef. unfold index_files. intros Hd.
    apply docs_provenance in Hd as [Hd|(f & Hf & H)];
      [by apply elem_of_nil in Hd|].
    exists f. split; [done|].
    destruct H as [(e & ds & Hr & Hin)|[_ Hfresh]]; [left|by right].
    apply reusable_Some in Hr as (H1 & _ & H2 & H3). eauto 10.
Qed.


(** X20. With embeddings enabled, a pass over a non-empty directory pairs the
    pages of the new index with the vectors of the encoder, in order; when the
    encoder gives one vector per page, the embedding index holds exactly the
    pages of the index. When the encoder fails, the embedding index of before
    the pass is kept. *)
Theorem embedding_index_follows_page_index (w : World Vec) dir :
  pdfplumber (cfg w) = true ->
  files_of (fs w) dir <> [] ->
  (USE_EMB (cfg w) && EMB_AVAILABLE (cfg w)) = true ->
  let w' := snd (index_pdfs encode w dir) in
  match encode (List.map text (INDEX w')) with
  | Some vecs =>
      EMB_INDEX w' = zip (INDEX w') vecs
      /\ (length vecs = length (INDEX w') ->
          fst <$> EMB_INDEX w' = INDEX w' /\ snd <$> EMB_INDEX w' = vecs)
  | None => EMB_INDEX w' = EMB_INDEX w
  end.
Proof.
  intros Hp Hf He. unfold index_pdfs.
  rewrite Hp, files_of_ensure_dir, (is_nil_false _ Hf), He. simpl.
  destruct (encode _) as [vecs|]; simpl; [|done].
  split; [done|]. intros Hl. split.
  - apply fst_zip. lia.
  - apply snd_zip. lia.
Qed.
End Passes.

(** ** Passes over a changed directory *)

Lemma skipped_false_kept cached f :
  skipped cached f = false -> exists e ds, kept cached f = Some (e, ds).
Proof. unfold skipped. destruct (kept cached f) as [[e ds]|]; [eauto|done]. Qed.

Lemma reusable_kept cached f e ds :
  reusable cached f = Some (e, ds) -> kept cached f = Some (e, ds).
Proof.
  intros Hr. unfold kept. rewrite Hr.
  by apply reusable_Some in Hr as (_ & [h ->] & _).
Qed.

Lemma size_new_cache cached files st :
  Forall (fun f => skipped cached f = false) files ->
  NoDup (f_abs <$> files) ->
  (forall f, f ∈ files -> new_cache st !! f_abs f = None) ->
  size (new_cache (index_files_from cached st files))
  = (size (new_cache st) + length files)%nat.
Proof.
  unfold index_files_from. revert st.
  induction files as [|f l IH]; intros st Hk Hnd Hfree; simpl; [lia|].
  apply Forall_cons in Hk as [Hf Hk]. rewrite fmap_cons in Hnd.
  apply NoDup_cons in Hnd as [Hnot Hnd].
  destruct (skipped_false_kept _ _ Hf) as (e & ds & Hkept).
  destruct (index_file_kept cached st f e ds Hkept) as [_ Hc].
  rewrite IH; [|done|done|].
  - rewrite Hc, map_size_insert_None; [lia|]. apply Hfree. left.
  - intros g Hg. rewrite Hc, lookup_insert_ne.
    + apply Hfree. by right.
    + intros Heq. apply Hnot. rewrite Heq. by apply list_elem_of_fmap_2.
Qed.

Lemma files_of_relist {Vec} (w : World Vec) dir files :
  files_of (fs (relist w dir files)) dir = files.
Proof. unfold relist, files_of. simpl. by rewrite lookup_insert_eq. Qed.

Lemma cached_files_of_relist {Vec} (w : World Vec) dir files :
  cached_files_of (fs (relist w dir files)) dir = cached_files_of (fs w) dir.
Proof.
  unfold relist, cached_files_of, persisted_cache at 1. simpl.
  by rewrite lookup_insert_eq.
Qed.

Section Relisted.
Variable Vec : Type.
Variable encode : list str -> option (list Vec).

(** The first of two passes, on a directory in which no file is skipped. *)
Lemma clean_pass (w : World Vec) dir :
  pdfplumber (cfg w) = true ->
  NoDup (f_abs <$> files_of (fs w) dir) ->
  Forall (fun f => skipped (cached_files_of (fs w) dir) f = false)
         (files_of (fs w) dir) ->
  let cached := cached_files_of (fs w) dir in
  let files := files_of (fs w) dir in
  let w1 := snd (index_pdfs encode w dir) in
  let m := cached_files_of (fs w1) dir in
  pdfplumber (cfg w1) = true
  /\ INDEX w1 = concat (kept_docs cached <$> files)
  /\ size m = length files
  /\ forall f, f ∈ files ->
       exists e ds, kept cached f = Some (e, ds) /\ m !! f_abs f = Some e.
Proof.
  intros Hp Hnd Hk cached files w1 m.
  split; [subst w1; by rewrite index_pdfs_cfg|].
  destruct (first_pass cached files (mkLoop [] ∅ 0 0) Hk Hnd) as [Hd Hc].
  pose proof (size_new_cache cached files (mkLoop [] ∅ 0 0) Hk Hnd
                (fun f _ => lookup_empty _)) as Hsz.
  cbn [new_cache] in Hsz. rewrite map_size_empty in Hsz. simpl in Hd, Hsz.
  assert (Hm : m = new_cache (index_files cached files)
               /\ INDEX w1 = docs (index_files cached files)).
  { subst m w1 cached files.
    destruct (files_of (fs w) dir) as [|f0 l] eqn:Ef.
    - rewrite (index_pdfs_empty Vec encode w dir Hp Ef). simpl.
      by rewrite cached_files_of_save.
    - destruct (index_pdfs_pass Vec encode w dir Hp)
        as (_ & _ & Hfs & Hidx & _); [by rewrite Ef|].
      rewrite Hfs, Hidx, Ef. by rewrite cached_files_of_save. }
  destruct Hm as [-> ->]. done.
Qed.

(** A pass over the listing [files] with the cache [m]. *)
Lemma pass_outcome (w : World Vec) dir :
  pdfplumber (cfg w) = true ->
  let files := files_of (fs w) dir in
  let m := cached_files_of (fs w) dir in
  let st := index_files m files in
  let w' := snd (index_pdfs encode w dir) in
  INDEX w' = docs st
  /\ processed_files (LAST_INDEX_STATS w') = processed st
  /\ reused_files (LAST_INDEX_STATS w') = reused st
  /\ deleted_files (LAST_INDEX_STATS w')
     = Z.max 0 (Z.of_nat (size m) - Z.of_nat (size (new_cache st)))
  /\ cached_files_of (fs w') dir = new_cache st.
Proof.
  intros Hp files m st w'. subst files m st w'.
  destruct (files_of (fs w) dir) as [|f0 l] eqn:Ef.
  - rewrite (index_pdfs_empty Vec encode w dir Hp Ef). simpl.
    rewrite cached_files_of_save, map_size_empty. repeat split; try done. lia.
  - destruct (index_pdfs_pass Vec encode w dir Hp)
      as (_ & _ & Hfs & Hidx & Hst); [by rewrite Ef|].
    rewrite Hfs, Hidx, Hst, Ef, cached_files_of_save. done.
Qed.

(** X21. A file removed between two passes: when the first pass cached every
    file, the second pass over the listing without [f] reports one deleted
    file, none processed, all others reused, drops the pages of [f] from the
    index and the entry of [f] from the cache. *)
Theorem removed_file_is_counted_deleted (w : World Vec) dir before f after :
  pdfplumber (cfg w) = true ->
  files_of (fs w) dir = before ++ f :: after ->
  NoDup (f_abs <$> before ++ f :: after) ->
  Forall (fun g => skipped (cached_files_of (fs w) dir) g = false)
         (before ++ f :: after) ->
  let cached := cached_files_of (fs w) dir in
  let w1 := snd (index_pdfs encode w dir) in
  let w2 := snd (index_pdfs encode (relist w1 dir (before ++ after)) dir) in
  INDEX w1 = concat (kept_docs cached <$> before) ++ kept_docs cached f
               ++ concat (kept_docs cached <$> after)
  /\ INDEX w2 = concat (kept_docs cached <$> before)
                  ++ concat (kept_docs cached <$> after)
  /\ deleted_files (LAST_INDEX_STATS w2) = 1
  /\ processed_files (LAST_INDEX_STATS w2) = 0
  /\ reused_files (LAST_INDEX_STATS w2) = len (before ++ after)
  /\ cached_files_of (fs w2) dir !! f_abs f = None.
Proof.
  intros Hp Hf Hnd Hk cached w1 w2.
  rewrite <- Hf in Hnd, Hk.
  destruct (clean_pass w dir Hp Hnd Hk) as (Hp1 & Hidx1 & Hsz & Hm).
  fold cached w1 in Hidx1, Hsz, Hm, Hp1. rewrite Hf in Hidx1, Hsz, Hm, Hnd.
  set (m := cached_files_of (fs w1) dir) in *.
  destruct (pass_outcome (relist w1 dir (before ++ after)) dir Hp1)
    as (Hi2 & Hpr2 & Hre2 & Hde2 & Hc2).
  fold w2 in Hi2, Hpr2, Hre2, Hde2, Hc2.
  rewrite files_of_relist, cached_files_of_relist in Hi2, Hpr2, Hre2, Hde2, Hc2.
  fold m in Hi2, Hpr2, Hre2, Hde2, Hc2. clearbody w2.
  assert (Hsub : forall g, g ∈ before ++ after ->
            exists e ds, kept cached g = Some (e, ds)
                         /\ m !! f_abs g = Some e).
  { intros g Hg. apply Hm. rewrite elem_of_app in *.
    destruct Hg; [by left|right; by right]. }
  destruct (second_pass cached m (before ++ after) (mkLoop [] ∅ 0 0) Hsub)
    as (Hd & Hpr & Hre).
  assert (Hnd2 : NoDup (f_abs <$> before ++ after)).
  { rewrite fmap_app, fmap_cons in Hnd. rewrite fmap_app.
    apply NoDup_app in Hnd as (H1 & H2 & H3). apply NoDup_cons in H3 as [_ H3].
    apply NoDup_app. split; [done|]. split; [|done].
    intros x Hx Hx'. apply (H2 x Hx). by right. }
  assert (Hk2 : Forall (fun g => skipped m g = false) (before ++ after)).
  { apply Forall_forall. intros g Hg. destruct (Hsub g Hg) as (e & ds & Hkg & Hmg).
    destruct (kept_reusable_later cached m g e ds Hkg Hmg) as [Hr _].
    unfold skipped. by rewrite (reusable_kept _ _ _ _ Hr). }
  pose proof (size_new_cache m (before ++ after) (mkLoop [] ∅ 0 0) Hk2 Hnd2
                (fun g _ => lookup_empty _)) as Hsz2.
  cbn [new_cache] in Hsz2. rewrite map_size_empty in Hsz2.
  unfold index_files in Hi2, Hpr2, Hre2, Hde2, Hc2.
  simpl in Hd, Hpr, Hre, Hsz2.
  rewrite fmap_app, concat_app in Hd.
  split. { rewrite Hidx1, fmap_app, concat_app. done. }
  split; [by rewrite Hi2, Hd|].
  split. { rewrite Hde2, Hsz, Hsz2. rewrite !length_app. simpl. lia. }
  split; [by rewrite Hpr2, Hpr|]. split; [by rewrite Hre2, Hre|].
  rewrite Hc2. apply index_files_cache_other.
  rewrite fmap_app, fmap_cons in Hnd. rewrite fmap_app, elem_of_app.
  apply NoDup_app in Hnd as (_ & H2 & H3). apply NoDup_cons in H3 as [H3 _].
  intros [Hin|Hin]; [|done]. apply (H2 _ Hin). left.
Qed.

(** X22. A file whose content changed between two passes: when the first pass
    cached every file, the second pass reprocesses that file only and reuses
    all others, and the index holds the pages of the others as before, with
    freshly extracted pages of the changed file in its place. *)
Theorem changed_file_alone_is_reprocessed (w : World Vec) dir
    before f f' after :
  pdfplumber (cfg w) = true ->
  files_of (fs w) dir = before ++ f :: after ->
  NoDup (f_abs <$> before ++ f :: after) ->
  Forall (fun g => skipped (cached_files_of (fs w) dir) g = false)
         (before ++ f :: after) ->
  f_abs f' = f_abs f ->
  f_hash f' <> f_hash f ->
  let cached := cached_files_of (fs w) dir in
  let w1 := snd (index_pdfs encode w dir) in
  let w2 :=
    snd (index_pdfs encode (relist w1 dir (before ++ f' :: after)) dir) in
  processed_files (LAST_INDEX_STATS w2) = 1
  /\ reused_files (LAST_INDEX_STATS w2) = len before + len after
  /\ exists pages,
       INDEX w2 = concat (kept_docs cached <$> before) ++ pages
                    ++ concat (kept_docs cached <$> after)
       /\ Forall (fresh_record (f_base f') (len (f_pages f'))) pages.
Proof.
  intros Hp Hf Hnd Hk Habs Hhash cached w1 w2.
  rewrite <- Hf in Hnd, Hk.
  destruct (clean_pass w dir Hp Hnd Hk) as (Hp1 & _ & _ & Hm).
  fold cached w1 in Hm, Hp1. rewrite Hf in Hm.
  set (m := cached_files_of (fs w1) dir) in *.
  destruct (pass_outcome (relist w1 dir (before ++ f' :: after)) dir Hp1)
    as (Hi2 & Hpr2 & Hre2 & _ & _).
  fold w2 in Hi2, Hpr2, Hre2.
  rewrite files_of_relist, cached_files_of_relist in Hi2, Hpr2, Hre2.
  fold m in Hi2, Hpr2, Hre2. clearbody w2.
  assert (Hb : forall g, g ∈ before ->
            exists e ds, kept cached g = Some (e, ds)
                         /\ m !! f_abs g = Some e).
  { intros g Hg. apply Hm. rewrite elem_of_app. by left. }
  assert (Ha : forall g, g ∈ after ->
            exists e ds, kept cached g = Some (e, ds)
                         /\ m !! f_abs g = Some e).
  { intros g Hg. apply Hm. rewrite elem_of_app. right. by right. }
  destruct (Hm f) as (e & ds & Hkf & Hmf);
    [rewrite elem_of_app; right; left|].
  destruct (kept_entry _ _ _ _ Hkf) as (_ & Heh & _).
  assert (Hmiss : reusable m f' = None).
  { unfold reusable. rewrite Habs, Hmf, Heh.
    destruct (f_hash f') as [h'|] eqn:Eh'; [|done].
    destruct (f_hash f) as [h|]; [|done]. destruct (ce_docs e); [|done].
    destruct (decide (h = h')) as [->|]; [done|done]. }
  set (st0 := mkLoop [] ∅ 0 0).
  set (st1 := index_files_from m st0 before).
  set (st2 := index_file m st1 f').
  assert (Hsplit : index_files m (before ++ f' :: after)
                   = index_files_from m st2 after).
  { unfold index_files, index_files_from, st2, st1, index_files_from.
    by rewrite fold_left_app. }
  destruct (second_pass cached m before st0 Hb) as (Hd1 & Hp1b & Hr1).
  fold st1 in Hd1, Hp1b, Hr1.
  destruct (second_pass cached m after st2 Ha) as (Hd3 & Hp3 & Hr3).
  rewrite <- Hsplit in Hd3, Hp3, Hr3.
  assert (Hmid : exists pages,
            docs st2 = docs st1 ++ pages
            /\ Forall (fresh_record (f_base f') (len (f_pages f'))) pages
            /\ processed st2 = processed st1 + 1
            /\ reused st2 = reused st1).
  { unfold st2, index_file. rewrite Hmiss.
    destruct (f_hash f') as [h'|].
    - destruct (extract_file f') as [fd ok] eqn:Ee. exists fd. simpl.
      repeat split; try done. apply Forall_forall. intros d Hd.
      apply extract_file_fresh. by rewrite Ee.
    - exists []. simpl. rewrite app_nil_r. repeat split; done. }
  destruct Hmid as (pages & Hd2 & Hfresh & Hp2 & Hr2).
  rewrite Hpr2, Hre2, Hi2, Hp3, Hr3, Hd3, Hp2, Hr2, Hd2, Hp1b, Hr1, Hd1.
  simpl. split; [done|]. split; [lia|].
  exists pages. split; [by rewrite <- !app_assoc|done].
Qed.
End Relisted.

(** ** The cache file *)

(** X23. [_load_cache] always returns a dict whose ["files"] is a dict: it is
    either [{"files": {}}] or the parsed content of the cache file itself. *)
Theorem load_cache_shape (file : CacheFile) :
  (exists m files,
     _load_cache file = JDict m /\ m !! lit "files" = Some (JDict files))
  /\ (_load_cache file = empty_cache
      \/ exists data, file = Parsed data /\ _load_cache file = data).
Proof.
  destruct file as [| |data]; simpl.
  1,2: split; [eexists _, _; split; [done|]; by rewrite lookup_singleton_eq
              |by left].
  destruct data as [| | | | | |m]; simpl;
    try (split; [eexists _, _; split; [done|]; by rewrite lookup_singleton_eq
                |by left]).
  unfold dict_get. destruct (m !! lit "files") as [v|] eqn:E; simpl.
  - destruct v; simpl;
      try (split; [eexists _, _; split; [done|];
                   by rewrite lookup_singleton_eq
                  |by left]).
    split; [eauto|]. right. eauto.
  - split; [eexists _, _; split; [done|]; by rewrite lookup_singleton_eq
           |by left].
Qed.

(** X24. The test on the cached entry of a file. It raises [AttributeError]
    exactly when the entry is truthy and not a dict (a non-empty string or
    list, a non-zero number, [true]); it reuses the entry exactly when the
    entry is a dict whose ["hash"] is the hash of the file and whose ["docs"]
    is a list; a path without entry is never reused. *)
Theorem cache_lookup_outcomes (cached_files : gmap str Json)
    (abs_path file_hash : str) :
  let entry := dict_get cached_files abs_path in
  (cache_lookup cached_files abs_path file_hash = AttributeError
   <-> json_truthy entry = true /\ is_dict entry = false)
  /\ (forall e docs,
        cache_lookup cached_files abs_path file_hash = Hit e docs
        <-> e = entry
            /\ exists m, entry = JDict m
                 /\ m !! lit "hash" = Some (JStr file_hash)
                 /\ m !! lit "docs" = Some (JList docs))
  /\ (cached_files !! abs_path = None ->
      cache_lookup cached_files abs_path file_hash = Miss).
Proof.
  unfold cache_lookup. cbv zeta. split; [|split].
  - destruct (dict_get cached_files abs_path) as [|b|n|z|s|l|m]; simpl;
      try (split; [done|by intros [? ?]]).
    + destruct b; simpl; (split; [done|by intros [? ?]]).
    + destruct (n =? 0); simpl; (split; [done|by intros [? ?]]).
    + destruct z; simpl; (split; [done|by intros [? ?]]).
    + destruct s; simpl; (split; [done|by intros [? ?]]).
    + destruct l; simpl; (split; [done|by intros [? ?]]).
    + split; [|by intros [? ?]].
      destruct (negb _); [|done].
      unfold dict_get.
      destruct (m !! lit "hash") as [[| | | |h| |]|]; try done. simpl.
      destruct (decide (h = file_hash)); [|done].
      by destruct (m !! lit "docs") as [[]|].
  - intros e docs.
    destruct (dict_get cached_files abs_path) as [|b|n|z|s|l|m] eqn:Ee; simpl;
      try (split; [done|by intros (_ & ? & ? & _)]).
    + destruct b; (split; [done|by intros (_ & ? & ? & _)]).
    + destruct (negb (n =? 0)); (split; [done|by intros (_ & ? & ? & _)]).
    + destruct (negb z); (split; [done|by intros (_ & ? & ? & _)]).
    + destruct (negb (is_nil s)); (split; [done|by intros (_ & ? & ? & _)]).
    + destruct (negb (is_nil l)); (split; [done|by intros (_ & ? & ? & _)]).
    + unfold dict_get.
      destruct (bool_decide (m = ∅)) eqn:Eb; simpl.
      * apply bool_decide_eq_true in Eb as ->. split; [done|].
        intros (_ & m' & [= <-] & Hh & _). by rewrite lookup_empty in Hh.
      * destruct (m !! lit "hash") as [vh|] eqn:Eh; simpl.
        -- destruct vh as [| | | |h| |];
             try (split; [done|by intros (_ & m' & [= <-] & Hh & _);
                               rewrite Eh in Hh]).
           destruct (decide (h = file_hash)) as [->|Hne].
           ++ destruct (m !! lit "docs") as [vd|] eqn:Ed; simpl.
              ** destruct vd as [| | | | |ld|];
                   try (split; [done|by intros (_ & m' & [= <-] & _ & Hd);
                                     rewrite Ed in Hd]).
                 split.
                 --- intros [= <- <-]. split; [done|]. eauto.
                 --- intros (-> & m' & [= <-] & _ & Hd).
                     rewrite Ed in Hd. by injection Hd as ->.
              ** split; [done|]. intros (_ & m' & [= <-] & _ & Hd).
                 by rewrite Ed in Hd.
           ++ split; [done|]. intros (_ & m' & [= <-] & Hh & _).
              rewrite Eh in Hh. congruence.
        -- split; [done|]. intros (_ & m' & [= <-] & Hh & _).
           by rewrite Eh in Hh.
  - intros Hnone. unfold dict_get. by rewrite Hnone.
Qed.

Lemma json_of_doc_inj d d' : json_of_doc d = json_of_doc d' -> d = d'.
Proof.
  destruct d as [f p t], d' as [f' p' t']. unfold json_of_doc.
  cbn [file page text]. intros Heq.
  pose (get := fun (k : str) (j : Json) =>
                 match j with JDict m => m !! k | _ => None end).
  assert (Hf : Some (JStr f) = Some (JStr f')).
  { apply (f_equal (get (lit "file"))) in Heq. cbv beta iota delta [get] in Heq.
    by rewrite !lookup_insert_eq in Heq. }
  assert (Hp : Some (JInt p) = Some (JInt p')).
  { apply (f_equal (get (lit "page"))) in Heq. cbv beta iota delta [get] in Heq.
    rewrite !(lookup_insert_ne _ (lit "file")) in Heq by done.
    by rewrite !lookup_insert_eq in Heq. }
  assert (Ht : Some (JStr t) = Some (JStr t')).
  { apply (f_equal (get (lit "text"))) in Heq. cbv beta iota delta [get] in Heq.
    rewrite !(lookup_insert_ne _ (lit "file")) in Heq by done.
    rewrite !(lookup_insert_ne _ (lit "page")) in Heq by done.
    by rewrite !lookup_singleton_eq in Heq. }
  congruence.
Qed.

Lemma json_of_docs_inj (ds ds' : list Doc) :
  json_of_doc <$> ds = json_of_doc <$> ds' -> ds = ds'.
Proof.
  revert ds'. induction ds as [|d ds IH]; intros [|d' ds']; csimpl;
    try done.
  intros Heq.
  pose proof (f_equal (fun l => hd JNull l) Heq) as Hd.
  pose proof (f_equal (fun l => tl l) Heq) as Hds. cbv beta in Hd, Hds.
  cbn [hd tl] in Hd, Hds.
  f_equal; [by apply json_of_doc_inj|by apply IH].
Qed.

Lemma loaded_files_written files :
  loaded_files (_load_cache (Parsed (json_of_cache files)))
  = json_of_entry <$> files.
Proof.
  unfold json_of_cache, _load_cache, dict_get.
  rewrite lookup_singleton_eq. simpl.
  unfold loaded_files. by rewrite lookup_singleton_eq.
Qed.

Lemma cache_lookup_written files f h :
  f_hash f = Some h ->
  cache_lookup (json_of_entry <$> files) (f_abs f) h
  = match reusable files f with
    | Some (e, ds) => Hit (json_of_entry e) (json_of_doc <$> ds)
    | None => Miss
    end.
Proof.
  intros Hh. unfold cache_lookup, reusable, dict_get.
  rewrite Hh, lookup_fmap.
  destruct (files !! f_abs f) as [e|]; simpl; [|done].
  unfold json_of_entry.
  destruct (ce_hash e) as [h0|] eqn:E1, (ce_docs e) as [ds|] eqn:E2;
    cbn [json_truthy].
  - rewrite bool_decide_eq_false_2 by apply insert_non_empty.
    cbn [negb]. unfold dict_get. rewrite lookup_insert_eq. cbn [default from_option id].
    destruct (decide (h0 = h)) as [->|]; [|done].
    rewrite lookup_insert_ne by done. rewrite lookup_singleton_eq.
    cbn [default from_option id]. by rewrite E1, E2.
  - rewrite bool_decide_eq_false_2 by apply insert_non_empty.
    cbn [negb]. unfold dict_get. rewrite lookup_insert_eq. cbn [default from_option id].
    destruct (decide (h0 = h)); [|done].
    rewrite lookup_insert_ne by done. by rewrite lookup_empty.
  - cbn [id]. rewrite bool_decide_eq_false_2 by apply insert_non_empty.
    cbn [negb]. unfold dict_get. by rewrite lookup_singleton_ne.
  - cbn [id]. by rewrite bool_decide_eq_true_2.
Qed.

(** X25. A cache the engine wrote is read back as written: [_load_cache]
    accepts it, the test on the cached entry of a file never raises on it and
    reuses an entry exactly when the typed cache does, with the same docs, and
    page records are recovered from their JSON form unchanged. *)
Theorem written_cache_is_read_back (files : gmap str CacheEntry)
    (f : PdfFile) (h : str) :
  f_hash f = Some h ->
  let cached := loaded_files (_load_cache (Parsed (json_of_cache files))) in
  cached = json_of_entry <$> files
  /\ cache_lookup cached (f_abs f) h
     = match reusable files f with
       | Some (e, ds) => Hit (json_of_entry e) (json_of_doc <$> ds)
       | None => Miss
       end
  /\ forall ds ds' : list Doc,
       json_of_doc <$> ds = json_of_doc <$> ds' -> ds = ds'.
Proof.
  intros Hh. cbv zeta. rewrite loaded_files_written.
  split; [done|]. split; [by apply cache_lookup_written|].
  apply json_of_docs_inj.
Qed.

(** ** [add_pdf] and the start-up *)

Lemma rfind_from_app c a b i last :
  rfind_from c (a ++ b) i last
  = rfind_from c b (i + len a) (rfind_from c a i last).
Proof.
  unfold len. revert i last. induction a as [|x a IH]; intros i last; simpl.
  - f_equal. lia.
  - rewrite IH. f_equal. lia.
Qed.

Lemma rfind_from_absent c s i last :
  Forall (fun x => x <> c) s -> rfind_from c s i last = last.
Proof.
  intros H. revert i. induction H as [|x s Hx _ IH]; intros i; simpl; [done|].
  apply N.eqb_neq in Hx. rewrite Hx. apply IH.
Qed.

Lemma dirname_of_name name :
  Forall (fun x => x <> sep) name -> dirname name = [].
Proof.
  intros H. unfold dirname, rfind. by rewrite rfind_from_absent.
Qed.

Lemma dirname_of_path dir name c :
  last dir = Some c -> c <> sep ->
  Forall (fun x => x <> sep) name ->
  dirname (dir ++ [sep] ++ name) = dir.
Proof.
  intros Hlast Hc Hname. unfold dirname, rfind.
  rewrite rfind_from_app. simpl.
  rewrite rfind_from_absent by done.
  assert (Hhead : slice (dir ++ sep :: name) 0 (0 + len dir + 1)
                  = dir ++ [sep]).
  { unfold slice, len. simpl drop.
    replace (Z.to_nat (0 + Z.of_nat (length dir) + 1) - Z.to_nat 0)%nat
      with (length dir + 1)%nat by lia.
    rewrite cons_middle, app_assoc. apply take_app_length'.
    rewrite length_app. simpl. lia. }
  rewrite Hhead.
  apply last_Some in Hlast as [dir' ->].
  assert (Hns : forallb (fun x => (x =? sep)%N) ((dir' ++ [c]) ++ [sep]) = false).
  { apply not_true_iff_false. rewrite forallb_forall. intros Hall.
    specialize (Hall c). rewrite N.eqb_eq in Hall. apply Hc, Hall.
    apply in_or_app. left. apply in_or_app. right. by left. }
  assert (Hnn : is_nil ((dir' ++ [c]) ++ [sep]) = false) by by destruct dir'.
  rewrite Hns, Hnn. cbn [negb andb].
  unfold rstrip_char. rewrite !rev_app_distr.
  change (rev [sep] ++ rev [c] ++ rev dir') with (sep :: c :: rev dir').
  cbn [lstrip_char]. rewrite N.eqb_refl.
  apply N.eqb_neq in Hc as ->. simpl. by rewrite rev_involutive.
Qed.

Section Callers.
Variable lower : str -> str.
Variable Vec : Type.
Variable encode : list str -> option (list Vec).
Variable external_search : str -> Z -> option str.
Variable cosine_search : str -> list (Doc * Vec) -> Z -> option str.

(** X26. [add_pdf] on a bare file name ingests [law_pdfs]; on [dir/name], with
    [dir] not ending in a separator, it ingests [dir]: the whole directory,
    not the one file. *)
Theorem add_pdf_reingests_the_parent_directory (w : World Vec) name :
  Forall (fun x => x <> sep) name ->
  add_pdf encode w name = index_pdfs encode w default_dir
  /\ forall dir c,
       last dir = Some c -> c <> sep ->
       add_pdf encode w (dir ++ [sep] ++ name) = index_pdfs encode w dir.
Proof.
  intros Hname. unfold add_pdf. split.
  - by rewrite dirname_of_name.
  - intros dir c Hlast Hc. rewrite (dirname_of_path dir name c) by done.
    by destruct dir.
Qed.

End Callers.

(** ** Failing pages, and ingestion followed by search *)

Lemma render_format results :
  results <> [] ->
  starts_with answer_header (render results) = true
  /\ contains (render results) (lit "**Offsets:**").
Proof.
  destruct results as [|r rs]; [done|]. intros _.
  destruct (render_nonempty r rs) as [tail Hrender]. split.
  - rewrite Hrender. apply starts_with_app.
  - eapply occurs_contains, (occurs_at_split _ _
      (answer_header ++ [10%N; 10%N] ++ lit "> - **Source:** " ++ s_file r
         ++ lit " | **Page:** " ++ str_of_int (s_page r) ++ lit " | ")).
    rewrite Hrender. rewrite <- !app_assoc. done.
Qed.

Lemma extract_pages_before_failure base i good rest :
  Forall (fun p => p <> PageRaises) good ->
  extract_pages base i (good ++ PageRaises :: rest)
  = (fst (extract_pages base i good), false).
Proof.
  revert i. induction good as [|p good IH]; intros i Hg; [done|].
  apply Forall_cons in Hg as [Hp Hg]. destruct p as [t|]; [|done].
  simpl. rewrite (IH (i + 1) Hg).
  by destruct (extract_pages base (i + 1) good).
Qed.

Lemma extract_pages_elem base i before txt after :
  Forall (fun p => p <> PageRaises) before ->
  strip txt <> [] ->
  mkDoc base (i + len before) (strip txt)
  ∈ fst (extract_pages base i (before ++ PageText (Some txt) :: after)).
Proof.
  revert i. induction before as [|p before IH]; intros i Hb Hne.
  - change (len (@nil PageRead)) with 0. rewrite Z.add_0_r. simpl.
    destruct (extract_pages base (i + 1) after) as [ds ok].
    destruct (strip txt) eqn:E; [done|]. left.
  - apply Forall_cons in Hb as [Hp Hb]. destruct p as [t|]; [|done].
    simpl. specialize (IH (i + 1) Hb Hne).
    destruct (extract_pages base (i + 1)
                (before ++ PageText (Some txt) :: after)) as [ds ok].
    simpl in *. apply elem_of_app. right.
    unfold len in *. simpl length.
    replace (i + Z.of_nat (S (length before)))
      with (i + 1 + Z.of_nat (length before)) by lia.
    done.
Qed.

Section Partial.
Variable cached : gmap str CacheEntry.

(** X28. A file one of whose pages fails to extract: the pages read before the
    failure are in the index all the same, each non-blank one under its page
    number, while the file gets no cache entry and is counted as processed. *)
Theorem pages_before_a_failure_stay_in_the_index st f h good rest :
  f_hash f = Some h ->
  reusable cached f = None ->
  f_open f = true ->
  f_pages f = good ++ PageRaises :: rest ->
  Forall (fun p => p <> PageRaises) good ->
  let st' := index_file cached st f in
  docs st' = docs st ++ fst (extract_pages (f_base f) 1 good)
  /\ new_cache st' = new_cache st
  /\ processed st' = processed st + 1
  /\ reused st' = reused st
  /\ forall before txt after,
       good = before ++ PageText (Some txt) :: after ->
       strip txt <> [] ->
       mkDoc (f_base f) (1 + len before) (strip txt) ∈ docs st'.
Proof.
  intros Hh Hr Ho Hp Hg. unfold index_file, extract_file.
  rewrite Hh, Hr, Ho, Hp, (extract_pages_before_failure _ _ _ _ Hg).
  cbv zeta. cbn [docs new_cache processed reused].
  repeat split; try done.
  intros before txt after -> Hne. apply elem_of_app. right.
  apply extract_pages_elem; [|done].
  by apply Forall_app in Hg as [Hg _].
Qed.

End Partial.

Section EndToEnd.
Variable lower : str -> str.
Variable Vec : Type.
Variable encode : list str -> option (list Vec).
Variable external_search : str -> Z -> option str.
Variable cosine_search : str -> list (Doc * Vec) -> Z -> option str.
Abbreviation search := (search_pdfs lower encode external_search cosine_search).

Lemma docs_of_unreusable cached st f h :
  f_hash f = Some h ->
  reusable cached f = None ->
  docs (index_file cached st f) = docs st ++ fst (extract_file f).
Proof.
  intros Hh Hr. unfold index_file. rewrite Hh, Hr.
  by destruct (extract_file f).
Qed.

Lemma docs_of_listed_file cached files f h d :
  f ∈ files ->
  f_hash f = Some h ->
  reusable cached f = None ->
  d ∈ fst (extract_file f) ->
  d ∈ docs (index_files cached files).
Proof.
  intros Hf Hh Hr Hd.
  apply list_elem_of_split in Hf as (before & after & ->).
  unfold index_files, index_files_from.
  rewrite fold_left_app. simpl.
  destruct (index_files_adds cached after
              (index_file cached
                 (fold_left (index_file cached) before (mkLoop [] ∅ 0 0)) f))
    as (Hdocs & _).
  unfold index_files_from in Hdocs. rewrite Hdocs.
  rewrite (docs_of_unreusable _ _ _ _ Hh Hr).
  apply elem_of_app. left. apply elem_of_app. by right.
Qed.

(** X29. Ingestion followed by search, with no embeddings in use and a [lower]
    that maps the empty string to itself: a page of an uncached file that
    opens, with no failing page before it, is in the index under its page
    number with its trimmed text; and when a token of the query occurs in that
    text, lowercased, every search with a positive [top_k] returns an answer
    with the header and the [**Offsets:**] marker, leaving the state as the
    ingestion left it (the scenario of [tests/test_rag_offsets.py]). *)
Theorem indexed_word_is_found (w : World Vec) dir f h before txt after
    query t top_k :
  pdfplumber (cfg w) = true ->
  (LTA_USE_EMBEDDINGS (cfg w) && EMB_ENGINE_AVAILABLE (cfg w)) = false ->
  (USE_EMB (cfg w) && EMB_AVAILABLE (cfg w)) = false ->
  lower [] = [] ->
  f ∈ files_of (fs w) dir ->
  f_hash f = Some h ->
  cached_files_of (fs w) dir !! f_abs f = None ->
  f_open f = true ->
  f_pages f = before ++ PageText (Some txt) :: after ->
  Forall (fun p => p <> PageRaises) before ->
  t ∈ _tokenize_query lower (strip query) ->
  contains (lower (strip txt)) t ->
  0 < top_k ->
  let w1 := snd (index_pdfs encode w dir) in
  mkDoc (f_base f) (1 + len before) (strip txt) ∈ INDEX w1
  /\ exists s,
       fst (fst (search w1 query top_k)) = Some s
       /\ snd (fst (search w1 query top_k)) = w1
       /\ starts_with answer_header s = true
       /\ contains s (lit "**Offsets:**").
Proof.
  intros Hp Hx Hi Hl Hf Hh Hc Ho Hpages Hb Ht Hin Hk w1.
  pose proof Ht as Ht'. unfold _tokenize_query in Ht'.
  apply list_elem_of_In, filter_In in Ht' as [Ht' Htne].
  assert (Hq : strip query <> []).
  { intros E. by rewrite E, Hl in Ht'. }
  assert (Htxt : strip txt <> []).
  { intros E. rewrite E, Hl in Hin. unfold contains, find in Hin.
    destruct t; [done|]. simpl in Hin. lia. }
  assert (Hr : reusable (cached_files_of (fs w) dir) f = None).
  { unfold reusable. by rewrite Hh, Hc. }
  assert (Hne : files_of (fs w) dir <> []).
  { intros E. rewrite E in Hf. by apply elem_of_nil in Hf. }
  destruct (index_pdfs_pass Vec encode w dir Hp Hne)
    as (_ & Hcfg & _ & Hidx & _).
  fold w1 in Hcfg, Hidx.
  assert (Hd : mkDoc (f_base f) (1 + len before) (strip txt) ∈ INDEX w1).
  { rewrite Hidx. apply (docs_of_listed_file _ _ f h); try done.
    unfold extract_file. rewrite Ho, Hpages.
    by apply extract_pages_elem. }
  split; [exact Hd|].
  pose proof (index_pdfs_loaded Vec encode w dir Hp) as Hload.
  fold w1 in Hload.
  destruct (search_pdfs_cases lower Vec encode external_search cosine_search
              w1 query top_k)
    as [[_ [E|E]]|[(s' & t' & _ & _ & _ & _ & [[E _]|[E _]])
                  |(t' & w2 & _ & _ & Heq & _ & [(_ & -> & _)|(E & _)])]];
    try done; try lia; try (rewrite Hcfg in E; congruence);
    try congruence.
  rewrite Heq. cbn [fst snd].
  destruct (proj2 (lexical_results_is_Some lower (INDEX w1)
                     (_tokenize_query lower (strip query)) top_k))
    as [results Hres].
  { exists (mkDoc (f_base f) (1 + len before) (strip txt)), t. done. }
  rewrite Hres. exists (render results). split; [done|]. split; [done|].
  apply render_format.
  by apply (lexical_results_nonempty lower _ _ _ _ Hk Hres).
Qed.

End EndToEnd.

(** * The further properties on the sample corpus *)

Lemma query_word_order_is_irrelevant_witness :
  lexical_results ascii_lower sample_index [lit "cheating"; lit "ipc"] 3
  = lexical_results ascii_lower sample_index [lit "ipc"; lit "cheating"] 3.
Proof.
  apply (query_word_order_is_irrelevant ascii_lower sample_index
           [lit "cheating"; lit "ipc"] [lit "ipc"; lit "cheating"] 3).
  apply perm_swap.
Defined.

Lemma absent_word_changes_nothing_witness :
  lexical_results ascii_lower sample_pages [lit "murder"; lit "cheating"] 3
  = lexical_results ascii_lower sample_pages [lit "cheating"] 3.
Proof.
  apply (absent_word_changes_nothing ascii_lower sample_pages
           [lit "cheating"] (lit "murder") 3).
  intros d Hd Hc.
  repeat (apply elem_of_cons in Hd as [->|Hd];
          [vm_compute in Hc; apply Hc; reflexivity|]).
  by apply elem_of_nil in Hd.
Defined.

Lemma larger_top_k_extends_results_witness :
  exists results',
    lexical_results ascii_lower sample_index sample_tokens 3 = Some results'
    /\ [sample_hit] = take 1 results'.
Proof.
  destruct (larger_top_k_extends_results ascii_lower sample_index
              sample_tokens 1 3 [sample_hit]) as (_ & results' & H1 & H2).
  - lia.
  - vm_compute. reflexivity.
  - exists results'. exact (conj H1 H2).
Defined.

Lemma window_within_text_witness :
  0 <= s_start sample_hit
  /\ s_end sample_hit <= s_start sample_hit + 300
  /\ len (s_snippet sample_hit) <= 300.
Proof.
  destruct (window_within_text ascii_lower sample_tokens
              (mkDoc (lit "ipc.pdf") 3
                 (lit "Whoever cheats: cheating, CHEATING by personation."))
              sample_hit) as (H1 & _ & H2 & _ & H3).
  - vm_compute. reflexivity.
  - exact (conj H1 (conj H2 H3)).
Defined.

Lemma window_is_nonempty_witness :
  s_start sample_hit < s_end sample_hit /\ s_snippet sample_hit <> [].
Proof.
  destruct (window_is_nonempty ascii_lower sample_tokens
              (mkDoc (lit "ipc.pdf") 3
                 (lit "Whoever cheats: cheating, CHEATING by personation."))
              sample_hit) as (H1 & H2 & _).
  - vm_compute. reflexivity.
  - vm_compute. repeat constructor. discriminate.
  - vm_compute. reflexivity.
  - exact (conj H1 H2).
Defined.

Lemma lexical_answer_format_witness :
  exists s,
    fst (fst (search_pdfs ascii_lower no_vectors no_external no_cosine
                          indexed_world (lit "cheating") 3)) = Some s
    /\ starts_with answer_header s = true
    /\ contains s (lit "**Offsets:**").
Proof.
  destruct (search_pdfs ascii_lower no_vectors no_external no_cosine
              indexed_world (lit "cheating") 3) as [[res w'] tiers] eqn:E.
  pose proof E as E'. vm_compute in E'. injection E' as Hres _ Htiers.
  subst res tiers. eexists. split; [reflexivity|].
  apply (lexical_answer_format ascii_lower unit no_vectors no_external
           no_cosine indexed_world (lit "cheating") 3 _ w' _ E).
  left.
Defined.

Lemma lexical_tier_answers_iff_a_word_occurs_witness :
  exists d t,
    d ∈ INDEX (snd (fst (search_pdfs ascii_lower no_vectors no_external
                           no_cosine indexed_world (lit "cheating") 3)))
    /\ t ∈ _tokenize_query ascii_lower (strip (lit "cheating"))
    /\ contains (ascii_lower (text d)) t.
Proof.
  destruct (search_pdfs ascii_lower no_vectors no_external no_cosine
              indexed_world (lit "cheating") 3) as [[res w'] tiers] eqn:E.
  pose proof E as E'. vm_compute in E'. injection E' as Hres _ Htiers.
  subst res tiers.
  apply (lexical_tier_answers_iff_a_word_occurs ascii_lower unit no_vectors
           no_external no_cosine indexed_world (lit "cheating") 3 _ w' _ E).
  - left.
  - eexists. reflexivity.
Defined.

Lemma search_changes_world_only_by_implicit_ingestion_witness :
  snd (fst (search_pdfs ascii_lower no_vectors no_external no_cosine
                        indexed_world (lit "cheating") 3)) = indexed_world.
Proof.
  pose proof (search_changes_world_only_by_implicit_ingestion ascii_lower
                unit no_vectors no_external no_cosine indexed_world
                (lit "cheating") 3) as H.
  destruct (search_pdfs ascii_lower no_vectors no_external no_cosine
              indexed_world (lit "cheating") 3) as [[res w'] tiers].
  destruct H as (H & _). apply H. reflexivity.
Defined.

Lemma implicit_ingestion_happens_once_witness :
  let first_search :=
    search_pdfs ascii_lower no_vectors no_external no_cosine sample_world
                (lit "cheating") 3 in
  let second_search :=
    search_pdfs ascii_lower no_vectors no_external no_cosine
                (snd (fst first_search)) (lit "offence") 1 in
  ImplicitIngest ∈ snd first_search
  /\ (ImplicitIngest ∉ snd second_search)
  /\ snd (fst second_search) = snd (fst first_search).
Proof.
  cbv zeta.
  pose proof (implicit_ingestion_happens_once ascii_lower unit no_vectors
                no_external no_cosine sample_world (lit "cheating") 3
                (lit "offence") 1 eq_refl) as H.
  destruct (search_pdfs ascii_lower no_vectors no_external no_cosine
              sample_world (lit "cheating") 3) as [[res w'] tiers] eqn:E.
  assert (Hin : ImplicitIngest ∈ tiers).
  { vm_compute in E. injection E as _ _ <-. left. }
  specialize (H Hin). cbn [fst snd].
  destruct (search_pdfs ascii_lower no_vectors no_external no_cosine w'
              (lit "offence") 1) as [[res' w''] tiers'].
  destruct H as [H1 H2]. exact (conj Hin (conj H1 H2)).
Defined.

Lemma without_pdfplumber_nothing_is_ever_indexed_witness :
  fst (index_pdfs no_vectors fresh_world_without_pdfplumber law_dir) = false
  /\ fst (fst (search_pdfs ascii_lower no_vectors no_external no_cosine
                 fresh_world_without_pdfplumber (lit "cheating") 3)) = None.
Proof.
  destruct (without_pdfplumber_nothing_is_ever_indexed ascii_lower unit
              no_vectors no_external no_cosine
              fresh_world_without_pdfplumber) as (_ & _ & _ & H1 & H2).
  - apply reach_initial.
  - reflexivity.
  - split; [apply H1|]. apply H2. reflexivity.
Defined.

Lemma search_after_clear_index_witness :
  fst (fst (search_pdfs ascii_lower no_vectors no_external no_cosine
              (clear_index indexed_world) (lit "cheating") 3)) = None
  /\ snd (fst (search_pdfs ascii_lower no_vectors no_external no_cosine
                 (clear_index indexed_world) (lit "cheating") 3))
     = clear_index indexed_world.
Proof.
  pose proof (search_after_clear_index ascii_lower unit no_vectors
                no_external no_cosine indexed_world (lit "cheating") 3
                eq_refl) as H.
  destruct (search_pdfs ascii_lower no_vectors no_external no_cosine
              (clear_index indexed_world) (lit "cheating") 3)
    as [[res w'] tiers].
  destruct H as (H1 & H2 & _). exact (conj H1 H2).
Defined.

Lemma search_after_empty_directory_witness :
  fst (fst (search_pdfs ascii_lower no_vectors no_external no_cosine
              (snd (index_pdfs no_vectors world_emptied law_dir))
              (lit "cheating") 3)) = None.
Proof.
  pose proof (search_after_empty_directory ascii_lower unit no_vectors
                no_external no_cosine world_emptied law_dir (lit "cheating")
                3 eq_refl) as H.
  cbv zeta in H.
  destruct (search_pdfs ascii_lower no_vectors no_external no_cosine
              (snd (index_pdfs no_vectors world_emptied law_dir))
              (lit "cheating") 3) as [[res w'] tiers].
  apply H; reflexivity.
Defined.

Lemma every_file_is_counted_once_witness :
  let stats := LAST_INDEX_STATS (snd (index_pdfs no_vectors sample_world
                                                 law_dir)) in
  processed_files stats + reused_files stats = 2.
Proof.
  exact (proj1 (every_file_is_counted_once unit no_vectors sample_world
                  law_dir eq_refl)).
Defined.

Lemma cache_after_pass_witness :
  exists m,
    persisted_cache (fs indexed_world) law_dir = Some m
    /\ m !! f_abs locked_pdf = None.
Proof.
  destruct (cache_after_pass unit no_vectors sample_world law_dir)
    as (m & H1 & _ & _ & H2).
  - reflexivity.
  - apply (bool_decide_unpack _). vm_compute. exact I.
  - exists m. split; [exact H1|]. apply H2.
    apply (bool_decide_unpack _). vm_compute. exact I.
Defined.

Lemma index_records_come_from_cache_or_extraction_witness :
  exists f, f ∈ [bns_pdf; ipc_pdf]
    /\ ((exists e ds,
           cached_files_of (fs sample_world) law_dir !! f_abs f = Some e
           /\ ce_hash e = f_hash f /\ ce_docs e = Some ds
           /\ mkDoc (lit "bns.pdf") 1
                (lit "BNS 318 replaces the offence of cheating.") ∈ ds)
        \/ fresh_record (f_base f) (len (f_pages f))
             (mkDoc (lit "bns.pdf") 1
                (lit "BNS 318 replaces the offence of cheating."))).
Proof.
  apply (index_records_come_from_cache_or_extraction unit no_vectors
           sample_world law_dir).
  - reflexivity.
  - apply (list_elem_of_lookup_2 _ 0%nat). reflexivity.
Defined.


Lemma embedding_index_follows_page_index_witness :
  let w' := snd (index_pdfs unit_vectors world_with_embeddings law_dir) in
  fst <$> EMB_INDEX w' = INDEX w'.
Proof.
  pose proof (embedding_index_follows_page_index unit unit_vectors
                world_with_embeddings law_dir eq_refl) as H.
  cbv zeta in *. unfold unit_vectors at 1 in H.
  destruct H as [_ H].
  - discriminate.
  - reflexivity.
  - apply H. rewrite !length_map. reflexivity.
Defined.

Lemma removed_file_is_counted_deleted_witness :
  let w2 :=
    snd (index_pdfs no_vectors (relist indexed_world law_dir [bns_pdf])
                    law_dir) in
  deleted_files (LAST_INDEX_STATS w2) = 1
  /\ processed_files (LAST_INDEX_STATS w2) = 0
  /\ reused_files (LAST_INDEX_STATS w2) = 1
  /\ cached_files_of (fs w2) law_dir !! f_abs ipc_pdf = None.
Proof.
  destruct (removed_file_is_counted_deleted unit no_vectors sample_world
              law_dir [bns_pdf] ipc_pdf [])
    as (_ & _ & H1 & H2 & H3 & H4).
  - reflexivity.
  - reflexivity.
  - apply (bool_decide_unpack _). vm_compute. exact I.
  - apply (bool_decide_unpack _). vm_compute. exact I.
  - exact (conj H1 (conj H2 (conj H3 H4))).
Defined.

Lemma changed_file_alone_is_reprocessed_witness :
  let w2 :=
    snd (index_pdfs no_vectors
           (relist indexed_world law_dir [bns_pdf; ipc_pdf_edited])
           law_dir) in
  processed_files (LAST_INDEX_STATS w2) = 1
  /\ reused_files (LAST_INDEX_STATS w2) = 1.
Proof.
  destruct (changed_file_alone_is_reprocessed unit no_vectors sample_world
              law_dir [bns_pdf] ipc_pdf ipc_pdf_edited [])
    as (H1 & H2 & _).
  - reflexivity.
  - reflexivity.
  - apply (bool_decide_unpack _). vm_compute. exact I.
  - apply (bool_decide_unpack _). vm_compute. exact I.
  - reflexivity.
  - vm_compute. discriminate.
  - exact (conj H1 H2).
Defined.

Lemma cache_lookup_outcomes_witness :
  cache_lookup {[ lit "/law/ipc.pdf" := JStr (lit "3b1f") ]}
               (lit "/law/ipc.pdf") (lit "3b1f") = AttributeError
  /\ cache_lookup {[ lit "/law/ipc.pdf" := JStr (lit "3b1f") ]}
                  (lit "/law/bns.pdf") (lit "9c4e") = Miss.
Proof.
  split.
  - apply (cache_lookup_outcomes {[ lit "/law/ipc.pdf" := JStr (lit "3b1f") ]}
             (lit "/law/ipc.pdf") (lit "3b1f")).
    vm_compute. split; reflexivity.
  - apply (cache_lookup_outcomes {[ lit "/law/ipc.pdf" := JStr (lit "3b1f") ]}
             (lit "/law/bns.pdf") (lit "9c4e")).
    vm_compute. reflexivity.
Defined.

Lemma written_cache_is_read_back_witness :
  let files := cached_files_of (fs indexed_world) law_dir in
  loaded_files (_load_cache (Parsed (json_of_cache files)))
  = json_of_entry <$> files.
Proof.
  exact (proj1 (written_cache_is_read_back
                  (cached_files_of (fs indexed_world) law_dir) bns_pdf
                  (lit "9c4e") eq_refl)).
Defined.

Lemma add_pdf_reingests_the_parent_directory_witness :
  add_pdf no_vectors sample_world (lit "ipc.pdf")
  = index_pdfs no_vectors sample_world default_dir
  /\ add_pdf no_vectors sample_world (lit "law/ipc.pdf")
     = index_pdfs no_vectors sample_world law_dir.
Proof.
  destruct (add_pdf_reingests_the_parent_directory unit no_vectors
              sample_world (lit "ipc.pdf")) as [H1 H2].
  - apply (bool_decide_unpack _). vm_compute. exact I.
  - split; [exact H1|].
    apply (H2 law_dir 119%N); [reflexivity|discriminate].
Defined.


Lemma vector_tiers_preempt_the_lexical_tier_witness :
  search_pdfs ascii_lower no_vectors sample_external no_cosine
              world_with_external (lit "cheating") 3
  = (Some (lit "> external answer"), world_with_external, [ExternalTier]).
Proof.
  destruct (search_pdfs ascii_lower no_vectors sample_external no_cosine
              world_with_external (lit "cheating") 3)
    as [[res w'] tiers] eqn:E.
  destruct (vector_tiers_preempt_the_lexical_tier ascii_lower unit no_vectors
              sample_external no_cosine world_with_external (lit "cheating")
              3 res w' tiers E) as (_ & _ & _ & H & _).
  destruct (H (lit "> external answer")) as (-> & -> & ->).
  - vm_compute in E. injection E as _ _ <-. left.
  - reflexivity.
  - discriminate.
  - reflexivity.
Defined.

Lemma pages_before_a_failure_stay_in_the_index_witness :
  let st' := index_file ∅ (mkLoop [] ∅ 0 0) torn_pdf in
  docs st' = [mkDoc (lit "torn.pdf") 1 (lit "Section 1. Cheating.")]
  /\ new_cache st' = ∅.
Proof.
  destruct (pages_before_a_failure_stay_in_the_index ∅ (mkLoop [] ∅ 0 0)
              torn_pdf (lit "c1d2")
              [PageText (Some (lit "Section 1. Cheating."))]
              [PageText (Some (lit "Section 2."))])
    as (H1 & H2 & _).
  - reflexivity.
  - reflexivity.
  - reflexivity.
  - reflexivity.
  - repeat constructor. discriminate.
  - split; [|exact H2]. rewrite H1. vm_compute. reflexivity.
Defined.

Lemma indexed_word_is_found_witness :
  mkDoc (lit "bns.pdf") 1 (lit "BNS 318 replaces the offence of cheating.")
  ∈ INDEX indexed_world
  /\ exists s,
       fst (fst (search_pdfs ascii_lower no_vectors no_external no_cosine
                   indexed_world (lit "cheating") 3)) = Some s
       /\ contains s (lit "**Offsets:**").
Proof.
  destruct (indexed_word_is_found ascii_lower unit no_vectors no_external
              no_cosine sample_world law_dir bns_pdf (lit "9c4e") []
              (lit "BNS 318 replaces the offence of cheating.") []
              (lit "cheating") (lit "cheating") 3)
    as (H1 & s & H2 & _ & _ & H3).
  - reflexivity.
  - reflexivity.
  - reflexivity.
  - reflexivity.
  - apply (list_elem_of_lookup_2 _ 0%nat). reflexivity.
  - reflexivity.
  - vm_compute. reflexivity.
  - reflexivity.
  - reflexivity.
  - constructor.
  - apply (list_elem_of_lookup_2 _ 0%nat). reflexivity.
  - unfold contains. vm_compute. discriminate.
  - lia.
  - split; [exact H1|]. exists s. exact (conj H2 H3).
Defined.
